(** * Lissajous sketch and canvas recorder: model and properties

    A shallow embedding of the keyframe sequencer, the spring-damper engine
    and the HOLD/TRANSITION state machine of [LissajousSketch]
    (lib/sketches/lissajous, the later of the two revisions of the class),
    of the capture loop and of [encodeVideo] of [useCanvasRecorder]
    (src/lib/use-canvas-recorder.ts), of [handleExport], the sync effect
    and the critical damping calculator of the page, and of the render
    loop of [CanvasSketch] (src/components/canvas-sketch.tsx).

    Numbers.  A JavaScript [number] that is used as an array index or as a
    step direction is a [Z]; every other [number] of the sketch is a real
    number ([R]), with [Math.abs], [Math.min], [Math.sqrt], [Math.pow],
    [Math.sin] and [Math.PI] read as [Rabs], [Rmin], [sqrt], [pow], [sin]
    and [PI]: rounding, NaN and infinities are outside this model.  The
    numbers of the capture loop of the recorder (timestamps, elapsed
    times and frame boundaries) are the doubles of the code, Rocq's
    primitive binary64 floats, with [-], [*], [/] and [>=] rounding and
    comparing as they do in JavaScript.  The timestamps of the render
    loop are exact rationals ([Q], milliseconds). *)

From Stdlib Require Import String Reals QArith ZArith List Bool Lia Psatz.
Import ListNotations.

(** ** Comparisons of real numbers as booleans *)

Definition Rltb (x y : R) : bool := if Rlt_dec x y then true else false.
Definition Rleb (x y : R) : bool := if Rle_dec x y then true else false.
Definition Reqb (x y : R) : bool := if Req_dec_T x y then true else false.

(** [x >= y] and [x > y] as the source writes them. *)
Definition Rgeb (x y : R) : bool := Rleb y x.
Definition Rgtb (x y : R) : bool := Rltb y x.

(** ** The sketch *)

Module Lissajous.

Local Open Scope R_scope.

(** [interface Params] and [interface Phase] have the same three fields and
    are used interchangeably ([targetParams = phases[nextIndex]]). *)
Record Params : Type := mkParams { a : R; b : R; delta : R }.

Definition Phase : Type := Params.

(** [keyof Params] *)
Inductive Key : Type := key_a | key_b | key_delta.

(** [p[key]] *)
Definition get (p : Params) (key : Key) : R :=
  match key with
  | key_a => a p
  | key_b => b p
  | key_delta => delta p
  end.

(** [p[key] = v] *)
Definition set (p : Params) (key : Key) (v : R) : Params :=
  match key with
  | key_a => mkParams v (b p) (delta p)
  | key_b => mkParams (a p) v (delta p)
  | key_delta => mkParams (a p) (b p) v
  end.

(** [{ a: 0, b: 0, delta: 0 }] *)
Definition zeroParams : Params := mkParams 0 0 0.

Inductive Mode : Type := classic | harmonic | table.

Definition Mode_eqb (m1 m2 : Mode) : bool :=
  match m1, m2 with
  | classic, classic | harmonic, harmonic | table, table => true
  | _, _ => false
  end.

Inductive AnimState : Type := HOLD | TRANSITION.

(** The fields of [class LissajousSketch]. *)
Record LissajousSketch : Type := mkSketch {
  t : R;
  timeStep : R;
  phases : list Phase;
  currentPhaseIndex : Z;
  direction : Z;
  stiffness : R;
  damping : R;
  mass : R;
  _mode : Mode;
  holdDuration : R;
  transitionDuration : R;
  state : AnimState;
  timer : R;
  frame : R;
  currentParams : Params;
  currentVelocity : Params;
  targetParams : Params
}.

(** Field assignments [this.f = v]. *)
Definition set_t (v : R) (s : LissajousSketch) : LissajousSketch :=
  mkSketch v (timeStep s) (phases s) (currentPhaseIndex s) (direction s)
    (stiffness s) (damping s) (mass s) (_mode s) (holdDuration s)
    (transitionDuration s) (state s) (timer s) (frame s) (currentParams s)
    (currentVelocity s) (targetParams s).

Definition set_currentPhaseIndex (v : Z) (s : LissajousSketch) : LissajousSketch :=
  mkSketch (t s) (timeStep s) (phases s) v (direction s)
    (stiffness s) (damping s) (mass s) (_mode s) (holdDuration s)
    (transitionDuration s) (state s) (timer s) (frame s) (currentParams s)
    (currentVelocity s) (targetParams s).

Definition set_direction (v : Z) (s : LissajousSketch) : LissajousSketch :=
  mkSketch (t s) (timeStep s) (phases s) (currentPhaseIndex s) v
    (stiffness s) (damping s) (mass s) (_mode s) (holdDuration s)
    (transitionDuration s) (state s) (timer s) (frame s) (currentParams s)
    (currentVelocity s) (targetParams s).

Definition set__mode (v : Mode) (s : LissajousSketch) : LissajousSketch :=
  mkSketch (t s) (timeStep s) (phases s) (currentPhaseIndex s) (direction s)
    (stiffness s) (damping s) (mass s) v (holdDuration s)
    (transitionDuration s) (state s) (timer s) (frame s) (currentParams s)
    (currentVelocity s) (targetParams s).

Definition set_state (v : AnimState) (s : LissajousSketch) : LissajousSketch :=
  mkSketch (t s) (timeStep s) (phases s) (currentPhaseIndex s) (direction s)
    (stiffness s) (damping s) (mass s) (_mode s) (holdDuration s)
    (transitionDuration s) v (timer s) (frame s) (currentParams s)
    (currentVelocity s) (targetParams s).

Definition set_timer (v : R) (s : LissajousSketch) : LissajousSketch :=
  mkSketch (t s) (timeStep s) (phases s) (currentPhaseIndex s) (direction s)
    (stiffness s) (damping s) (mass s) (_mode s) (holdDuration s)
    (transitionDuration s) (state s) v (frame s) (currentParams s)
    (currentVelocity s) (targetParams s).

Definition set_frame (v : R) (s : LissajousSketch) : LissajousSketch :=
  mkSketch (t s) (timeStep s) (phases s) (currentPhaseIndex s) (direction s)
    (stiffness s) (damping s) (mass s) (_mode s) (holdDuration s)
    (transitionDuration s) (state s) (timer s) v (currentParams s)
    (currentVelocity s) (targetParams s).

Definition set_currentParams (v : Params) (s : LissajousSketch) : LissajousSketch :=
  mkSketch (t s) (timeStep s) (phases s) (currentPhaseIndex s) (direction s)
    (stiffness s) (damping s) (mass s) (_mode s) (holdDuration s)
    (transitionDuration s) (state s) (timer s) (frame s) v
    (currentVelocity s) (targetParams s).

Definition set_currentVelocity (v : Params) (s : LissajousSketch) : LissajousSketch :=
  mkSketch (t s) (timeStep s) (phases s) (currentPhaseIndex s) (direction s)
    (stiffness s) (damping s) (mass s) (_mode s) (holdDuration s)
    (transitionDuration s) (state s) (timer s) (frame s) (currentParams s)
    v (targetParams s).

Definition set_targetParams (v : Params) (s : LissajousSketch) : LissajousSketch :=
  mkSketch (t s) (timeStep s) (phases s) (currentPhaseIndex s) (direction s)
    (stiffness s) (damping s) (mass s) (_mode s) (holdDuration s)
    (transitionDuration s) (state s) (timer s) (frame s) (currentParams s)
    (currentVelocity s) v.

(** The five keyframes of the class. *)
Definition default_phases : list Phase :=
  [ mkParams 1 1 (PI / 2);
    mkParams 1 2 (PI / 2);
    mkParams 1 3 (PI / 2);
    mkParams 3 4 (PI / 2);
    mkParams 3 5 (PI / 2) ].

(** [arr[i]] for a numeric index: [None] is JavaScript's [undefined]. *)
Definition array_get {A : Type} (l : list A) (i : Z) : option A :=
  if (i <? 0)%Z then None else nth_error l (Z.to_nat i).

(** The field initialisers and the constructor. *)
Definition new_LissajousSketch : LissajousSketch :=
  mkSketch 0 (1 / 100) default_phases 0%Z 1%Z
    (2 / 100) (2 / 10) 1 classic (2 * 60) (2 * 60)
    HOLD 0 0
    (mkParams 1 1 (PI / 2)) zeroParams (mkParams 1 1 (PI / 2)).

(** *** The sequencer *)

(** [switchTarget()].  The result is [None] when [phases[nextIndex]] is
    [undefined]: the target then has no fields and the next read of
    [targetParams[key]] throws. *)
Definition switchTarget (s : LissajousSketch) : option LissajousSketch :=
  let nextIndex := (currentPhaseIndex s + direction s)%Z in
  let len := Z.of_nat (length (phases s)) in
  let '(dir, nextIndex) :=
    if (len <=? nextIndex)%Z then ((-1)%Z, (len - 2)%Z)
    else if (nextIndex <? 0)%Z then (1%Z, 1%Z)
    else (direction s, nextIndex) in
  match array_get (phases s) nextIndex with
  | Some p =>
      Some (set_targetParams p
             (set_currentPhaseIndex nextIndex (set_direction dir s)))
  | None => None
  end.

(** [n] consecutive calls of [switchTarget]. *)
Fixpoint switchTarget_iter (n : nat) (s : LissajousSketch) : option LissajousSketch :=
  match n with
  | O => Some s
  | S n' =>
      match switchTarget s with
      | Some s' => switchTarget_iter n' s'
      | None => None
      end
  end.

(** *** The spring-damper engine *)

(** The constants of the harmonic block of [applySpringForce];
    [tensionPower] is the literal [6.0], an integral exponent. *)
Definition maxStiffness : R := 1.
Definition minStiffness : R := 1 / 100000.
Definition tensionPower : nat := 6.
Definition dampZeta : R := 4.

(** The two assignments of a hard snap:
    [currentParams[key] = targetParams[key]; currentVelocity[key] = 0]. *)
Definition snapToTarget (key : Key) (s : LissajousSketch) : LissajousSketch :=
  let s := set_currentParams
             (set (currentParams s) key (get (targetParams s) key)) s in
  set_currentVelocity (set (currentVelocity s) key 0) s.

(** [k_eff] of the harmonic block, for a displacement of magnitude [distAbs]. *)
Definition k_eff (distAbs : R) : R :=
  let distNorm := Rmin distAbs 1 in
  minStiffness + (maxStiffness - minStiffness) * distNorm ^ tensionPower.

(** The test of the early return of the harmonic block. *)
Definition harmonicEarlySnap (key : Key) (s : LissajousSketch) : bool :=
  let displacement := get (targetParams s) key - get (currentParams s) key in
  let distAbs := Rabs displacement in
  Rltb distAbs (1 / 100000) &&
  Rltb (Rabs (get (currentVelocity s) key)) (1 / 100000).

(** The two Euler assignments
    [currentVelocity[key] += accel; currentParams[key] += currentVelocity[key]]
    for the [force] and [dampingFactor] chosen by the mode. *)
Definition integrate (key : Key) (force dampingFactor : R) (s : LissajousSketch)
  : LissajousSketch :=
  let dampingForce := get (currentVelocity s) key * dampingFactor in
  let accel := (force - dampingForce) / mass s in
  let s := set_currentVelocity
             (set (currentVelocity s) key (get (currentVelocity s) key + accel)) s in
  set_currentParams
    (set (currentParams s) key
       (get (currentParams s) key + get (currentVelocity s) key)) s.

(** [applySpringForce(key)]. *)
Definition applySpringForce (key : Key) (s : LissajousSketch) : LissajousSketch :=
  let displacement := get (targetParams s) key - get (currentParams s) key in
  let distAbs := Rabs displacement in
  let '(force, dampingFactor) :=
    match _mode s with
    | harmonic =>
        let c_crit := 2 * sqrt (mass s * k_eff distAbs) in
        (displacement * k_eff distAbs, c_crit * dampZeta)
    | _ => (displacement * stiffness s, damping s)
    end in
  if Mode_eqb (_mode s) harmonic && harmonicEarlySnap key s
  then snapToTarget key s
  else
    let s := integrate key force dampingFactor s in
    let snapThreshold :=
      if Mode_eqb (_mode s) harmonic then 1 / 10000 else 1 / 1000 in
    let velThreshold :=
      if Mode_eqb (_mode s) harmonic then 1 / 10000 else 1 / 1000 in
    if Rltb distAbs snapThreshold &&
       Rltb (Rabs (get (currentVelocity s) key)) velThreshold
    then snapToTarget key s
    else s.

(** *** The state machine *)

(** [isSettled] of [updateLogic]: strict equality on the three fields. *)
Definition isSettled (s : LissajousSketch) : bool :=
  Reqb (a (currentParams s)) (a (targetParams s)) &&
  Reqb (b (currentParams s)) (b (targetParams s)) &&
  Reqb (delta (currentParams s)) (delta (targetParams s)).

(** The first five statements of [updateLogic]: the clocks and the three
    calls of the engine. *)
Definition advancePhysics (s : LissajousSketch) : LissajousSketch :=
  let s := set_t (t s + timeStep s) s in
  let s := set_timer (timer s + 1) s in
  let s := applySpringForce key_a s in
  let s := applySpringForce key_b s in
  applySpringForce key_delta s.

(** [shouldFinish] of the TRANSITION branch, on the state after the
    physics. *)
Definition shouldFinish (s : LissajousSketch) : bool :=
  match _mode s with
  | harmonic => isSettled s || Rgtb (timer s) 1800
  | _ => Rgeb (timer s) (transitionDuration s)
  end.

(** [updateLogic()]; [None] only when [switchTarget] leaves no target. *)
Definition updateLogic (s : LissajousSketch) : option LissajousSketch :=
  let s := advancePhysics s in
  match state s with
  | HOLD =>
      if Rgeb (timer s) (holdDuration s)
      then switchTarget (set_timer 0 (set_state TRANSITION s))
      else Some s
  | TRANSITION =>
      if shouldFinish s
      then
        let s := set_state HOLD s in
        let s := set_timer 0 s in
        let s := set_currentParams (targetParams s) s in
        Some (set_currentVelocity zeroParams s)
      else Some s
  end.

(** The setter [set mode(v)]. *)
Definition set_mode (v : Mode) (s : LissajousSketch) : LissajousSketch :=
  if negb (Mode_eqb (_mode s) v)
  then set_currentVelocity zeroParams (set__mode v s)
  else s.

(** *** Drawing *)

(** What a draw method does to the 2D context: the property assignments
    and the path and fill calls, in program order. *)
Inductive CanvasOp : Type :=
| set_fillStyle (color : string)
| set_strokeStyle (color : string)
| set_lineWidth (w : R)
| set_lineJoin (j : string)
| set_lineCap (c : string)
| set_globalAlpha (alpha : R)
| setLineDash (segments : list R)
| beginPath
| moveTo (x y : R)
| lineTo (x y : R)
| stroke
| fillRect (x y w h : R).

(** [theme] of [SketchContext]. *)
Record Theme : Type := mkTheme { foreground : string; background : string }.

(** [getPointAt(t)], with [R = 1]. *)
Definition getPointAt (s : LissajousSketch) (u : R) : R * R :=
  let x := 1 * sin (a (currentParams s) * u + delta (currentParams s)) in
  let y := 1 * sin (b (currentParams s) * u) in
  (x, y).

(** The body of a sampling loop [for (i = 0; i <= samples; i++)] that
    moves to the first point and draws a line to every later one. *)
Definition polyline (samples : nat) (point : nat -> R * R) : list CanvasOp :=
  map (fun i =>
         let '(sx, sy) := point i in
         if Nat.eqb i 0 then moveTo sx sy else lineTo sx sy)
      (seq 0 (S samples)).

(** [drawClassic(ctx, width, height, theme)]. *)
Definition drawClassic (s : LissajousSketch) (width height : R) (theme : Theme)
  : list CanvasOp :=
  let centerX := width / 2 in
  let centerY := height / 2 in
  let scale := Rmin width height * (35 / 100) in
  let samples := 4000%nat in
  let maxT := PI * 2 in
  [ beginPath; set_strokeStyle (foreground theme);
    set_lineWidth (width * (4 / 1000));
    set_lineJoin "round"; set_lineCap "round" ]
  ++ polyline samples
       (fun i =>
          let u := INR i / INR samples * maxT in
          let p := getPointAt s u in
          (centerX + fst p * scale, centerY + snd p * scale))
  ++ [ stroke ].

(** [drawSpring(ctx, x1, y1, x2, y2, coils, color, width)]: a straight
    line; [coils] is not used. *)
Definition drawSpring (x1 y1 x2 y2 : R) (coils : nat) (color : string) (width : R)
  : list CanvasOp :=
  [ beginPath; set_strokeStyle color; set_lineWidth width;
    moveTo x1 y1; lineTo x2 y2; stroke ].

(** The sample [i] of the curve traced by [drawHarmonic], before scaling:
    [hA = 1], [hB = 1], [hDelta = Math.PI / 2], [R = 1]. *)
Definition harmonicCurvePoint (samples : nat) (i : nat) : R * R :=
  let maxT := PI * 2 in
  let hA := 1 in
  let hB := 1 in
  let hDelta := PI / 2 in
  let u := INR i / INR samples * maxT in
  (1 * sin (hA * u + hDelta), 1 * sin (hB * u)).

(** [drawHarmonic(ctx, width, height, theme)]. *)
Definition drawHarmonic (s : LissajousSketch) (width height : R) (theme : Theme)
  : list CanvasOp :=
  let centerX := width / 2 in
  let centerY := height / 2 in
  let scale := Rmin width height * (35 / 100) in
  let samples := 2000%nat in
  let physA := 1 in
  let physB := 1 in
  let physDelta := PI / 2 in
  let px_val := 1 * sin (physA * t s + physDelta) in
  let py_val := 1 * sin (physB * t s) in
  let px := centerX + px_val * scale in
  let py := centerY + py_val * scale in
  let oscOffset := 12 / 10 in
  let oscX_Y := centerY - scale * oscOffset in
  let oscY_X := centerX - scale * oscOffset in
  let mechanismColor := "#000000"%string in
  let strokeWidth := width * (2 / 1000) in
  let anchorX := centerX - scale in
  let massX := centerX + px_val * scale in
  let anchorY := centerY - scale in
  let massY := centerY + py_val * scale in
  let boxSize := 20 in
  [ beginPath; set_strokeStyle (foreground theme);
    set_lineWidth (width * (4 / 1000)); set_lineCap "round";
    set_globalAlpha 1 ]
  ++ polyline samples
       (fun i =>
          let p := harmonicCurvePoint samples i in
          (centerX + fst p * scale, centerY + snd p * scale))
  ++ [ stroke;
       set_strokeStyle mechanismColor; set_lineWidth strokeWidth;
       beginPath; moveTo (centerX - scale) oscX_Y;
       lineTo (centerX + scale) oscX_Y; stroke;
       beginPath; moveTo oscY_X (centerY - scale);
       lineTo oscY_X (centerY + scale); stroke ]
  ++ drawSpring anchorX oscX_Y massX oscX_Y 20 mechanismColor strokeWidth
  ++ drawSpring oscY_X anchorY oscY_X massY 20 mechanismColor strokeWidth
  ++ [ set_fillStyle mechanismColor;
       fillRect (massX - boxSize / 2) (oscX_Y - boxSize / 2) boxSize boxSize;
       fillRect (oscY_X - boxSize / 2) (massY - boxSize / 2) boxSize boxSize;
       set_strokeStyle mechanismColor; setLineDash []; set_lineWidth strokeWidth;
       beginPath; moveTo massX oscX_Y; lineTo massX py; stroke;
       beginPath; moveTo oscY_X massY; lineTo px massY; stroke;
       set_fillStyle mechanismColor;
       fillRect (px - boxSize / 2) (py - boxSize / 2) boxSize boxSize ].

(** *** Notions used by the properties *)

(** The cursor is valid: at least two keyframes, the index inside the
    sequence, the direction one step up or down. *)
Definition cursor_ok (s : LissajousSketch) : Prop :=
  (2 <= Z.of_nat (length (phases s)))%Z /\
  (0 <= currentPhaseIndex s < Z.of_nat (length (phases s)))%Z /\
  (direction s = 1%Z \/ direction s = (-1)%Z).

(** What one call of [switchTarget] does to a valid cursor. *)
Definition pingPongStep (s1 s2 : LissajousSketch) : Prop :=
  let len := Z.of_nat (length (phases s1)) in
  (direction s2 = direction s1 /\
   currentPhaseIndex s2 = (currentPhaseIndex s1 + direction s1)%Z)
  \/ (direction s1 = 1%Z /\ currentPhaseIndex s1 = (len - 1)%Z /\
      direction s2 = (-1)%Z /\ currentPhaseIndex s2 = (len - 2)%Z)
  \/ (direction s1 = (-1)%Z /\ currentPhaseIndex s1 = 0%Z /\
      direction s2 = 1%Z /\ currentPhaseIndex s2 = 1%Z).

(** Every field other than [_mode] and [currentVelocity] is the same in
    both sketches. *)
Definition sameButModeAndVelocity (s s' : LissajousSketch) : Prop :=
  currentParams s' = currentParams s /\
  targetParams s' = targetParams s /\
  currentPhaseIndex s' = currentPhaseIndex s /\
  direction s' = direction s /\
  state s' = state s /\
  timer s' = timer s /\
  t s' = t s /\
  timeStep s' = timeStep s /\
  frame s' = frame s /\
  phases s' = phases s /\
  stiffness s' = stiffness s /\
  damping s' = damping s /\
  mass s' = mass s /\
  holdDuration s' = holdDuration s /\
  transitionDuration s' = transitionDuration s.

(** The engine writes [currentParams] and [currentVelocity] only. *)
Definition sameButMotion (s s' : LissajousSketch) : Prop :=
  _mode s' = _mode s /\
  targetParams s' = targetParams s /\
  currentPhaseIndex s' = currentPhaseIndex s /\
  direction s' = direction s /\
  state s' = state s /\
  timer s' = timer s /\
  t s' = t s /\
  timeStep s' = timeStep s /\
  frame s' = frame s /\
  phases s' = phases s /\
  stiffness s' = stiffness s /\
  damping s' = damping s /\
  mass s' = mass s /\
  holdDuration s' = holdDuration s /\
  transitionDuration s' = transitionDuration s.

(** [current == target] on the three fields. *)
Definition settled (s : LissajousSketch) : Prop :=
  a (currentParams s) = a (targetParams s) /\
  b (currentParams s) = b (targetParams s) /\
  delta (currentParams s) = delta (targetParams s).

(** *** The harmonic profile as the specification words it *)

Definition clamp (x lo hi : R) : R := Rmin (Rmax x lo) hi.

(** [stiffness_eff = min + (max - min) * clamp(|d|, 0, 1) ^ power] *)
Definition spec_stiffness_eff (d : R) : R :=
  minStiffness + (maxStiffness - minStiffness) * clamp (Rabs d) 0 1 ^ tensionPower.

(** [damping_eff = 2 * sqrt(mass * stiffness_eff) * zeta] *)
Definition spec_damping_eff (m d : R) : R :=
  2 * sqrt (m * spec_stiffness_eff d) * dampZeta.

(** One explicit Euler step for the displacement [d], velocity [v] and
    position [c]: the new velocity and the new position. *)
Definition spec_harmonic_step (m d v c : R) : R * R :=
  let force := d * spec_stiffness_eff d in
  let accel := (force - v * spec_damping_eff m d) / m in
  let v' := v + accel in
  (v', c + v').

(** *** Concrete sketches *)

(** A sketch in harmonic mode, in TRANSITION, whose field [b] is at [cur]
    with velocity [vel] and target [tgt], for the mass [m]; the rest is as
    the constructor leaves it. *)
Definition harmonicAt (m cur vel tgt : R) : LissajousSketch :=
  mkSketch 0 (1 / 100) default_phases 0%Z 1%Z (2 / 100) (2 / 10) m harmonic
    (2 * 60) (2 * 60) TRANSITION 0 0
    (mkParams 1 cur (PI / 2)) (mkParams 0 vel 0) (mkParams 1 tgt (PI / 2)).

(** A classic sketch on the last frame of a transition of 120 frames,
    short of its target and still moving. *)
Definition lastTransitionFrame : LissajousSketch :=
  mkSketch 0 (1 / 100) default_phases 1%Z 1%Z (2 / 100) (2 / 10) 1 classic
    (2 * 60) (2 * 60) TRANSITION 119 0
    (mkParams 1 (19 / 10) (PI / 2)) (mkParams 0 (1 / 100) 0)
    (mkParams 1 2 (PI / 2)).

(** *** Frames and the public fields *)

(** [n] consecutive frames of [updateLogic]. *)
Fixpoint runFrames (n : nat) (s : LissajousSketch) : option LissajousSketch :=
  match n with
  | O => Some s
  | S n' =>
      match updateLogic s with
      | Some s' => runFrames n' s'
      | None => None
      end
  end.

(** Assignments to the public fields, as the page writes them. *)
Definition set_stiffness (v : R) (s : LissajousSketch) : LissajousSketch :=
  mkSketch (t s) (timeStep s) (phases s) (currentPhaseIndex s) (direction s)
    v (damping s) (mass s) (_mode s) (holdDuration s)
    (transitionDuration s) (state s) (timer s) (frame s) (currentParams s)
    (currentVelocity s) (targetParams s).

Definition set_damping (v : R) (s : LissajousSketch) : LissajousSketch :=
  mkSketch (t s) (timeStep s) (phases s) (currentPhaseIndex s) (direction s)
    (stiffness s) v (mass s) (_mode s) (holdDuration s)
    (transitionDuration s) (state s) (timer s) (frame s) (currentParams s)
    (currentVelocity s) (targetParams s).

Definition set_mass (v : R) (s : LissajousSketch) : LissajousSketch :=
  mkSketch (t s) (timeStep s) (phases s) (currentPhaseIndex s) (direction s)
    (stiffness s) (damping s) v (_mode s) (holdDuration s)
    (transitionDuration s) (state s) (timer s) (frame s) (currentParams s)
    (currentVelocity s) (targetParams s).

Definition set_holdDuration (v : R) (s : LissajousSketch) : LissajousSketch :=
  mkSketch (t s) (timeStep s) (phases s) (currentPhaseIndex s) (direction s)
    (stiffness s) (damping s) (mass s) (_mode s) v
    (transitionDuration s) (state s) (timer s) (frame s) (currentParams s)
    (currentVelocity s) (targetParams s).

Definition set_transitionDuration (v : R) (s : LissajousSketch) : LissajousSketch :=
  mkSketch (t s) (timeStep s) (phases s) (currentPhaseIndex s) (direction s)
    (stiffness s) (damping s) (mass s) (_mode s) (holdDuration s)
    v (state s) (timer s) (frame s) (currentParams s)
    (currentVelocity s) (targetParams s).

(** The field sits on its target and does not move. *)
Definition fieldAtRest (key : Key) (s : LissajousSketch) : Prop :=
  get (currentParams s) key = get (targetParams s) key /\
  get (currentVelocity s) key = 0.

(** The sketch sits on its target and does not move. *)
Definition atRest (s : LissajousSketch) : Prop :=
  currentParams s = targetParams s /\ currentVelocity s = zeroParams.

(** The configuration is the same: mode, keyframes, time step, physics
    fields and the two durations. *)
Definition sameConfig (s s' : LissajousSketch) : Prop :=
  _mode s' = _mode s /\
  phases s' = phases s /\
  timeStep s' = timeStep s /\
  stiffness s' = stiffness s /\
  damping s' = damping s /\
  mass s' = mass s /\
  holdDuration s' = holdDuration s /\
  transitionDuration s' = transitionDuration s.

(** [n] is the number of frames a phase with the duration [d] lasts: the
    first whole number of frames that reaches [d], and at least one. *)
Definition framesFor (d : R) (n : nat) : Prop :=
  (0 < n)%nat /\ d <= INR n /\ (n = 1%nat \/ INR n - 1 < d).

(** The points a path operation names lie on the surface. *)
Definition opInside (width height : R) (op : CanvasOp) : Prop :=
  match op with
  | moveTo x y | lineTo x y => 0 <= x <= width /\ 0 <= y <= height
  | _ => True
  end.

(** The sequencer is where it was: index, direction and target. *)
Definition sameCursor (s s' : LissajousSketch) : Prop :=
  currentPhaseIndex s' = currentPhaseIndex s /\
  direction s' = direction s /\
  targetParams s' = targetParams s.

End Lissajous.

(** ** The recorder *)

From Stdlib Require Floats.

Module Recorder.

Import PrimFloat.

Local Open Scope float_scope.

Section Canvas.

(** The PNG blobs, and [canvas.toBlob] at the time of a callback: [None]
    is the [null] blob, which the callback does not push.  The blob
    callback is taken to run before the next animation frame. *)
Variable Blob : Type.
Variable toBlob : float -> option Blob.

(** The state of the hook: [isRecording], [framesRef.current], [loaded].
    [ffmpegRef] and the console are left out. *)
Record Recorder : Type := mkRecorder {
  isRecording : bool;
  framesRef : list Blob;
  loaded : bool
}.

(** The variables one call of [startRecording] closes over.  [frameCount]
    counts from 0 in steps of 1. *)
Record Capture : Type := mkCapture {
  bitrate : Z;
  startTime : float;
  frameCount : nat
}.

(** What a call leaves behind for the browser. *)
Inductive Effect : Type :=
| alert (msg : string)
| requestAnimationFrame (c : Capture)
| encodeVideo (targetBitrate : Z).

Definition totalDuration : float := 10000.
Definition fps : float := 60.
Definition interval : float := 1000 / fps.

(** The count [n] as the double the code holds it in (exact for every
    count the loop reaches). *)
Definition toNumber (n : nat) : float := of_uint63 (Uint63.of_Z (Z.of_nat n)).

(** [setLoaded(true)] once [ffmpeg.load] has resolved; a failed load only
    logs. *)
Definition load (ok : bool) (r : Recorder) : Recorder :=
  if ok then mkRecorder (isRecording r) (framesRef r) true else r.

(** [startRecording(bitrate)] at time [now], for [canvasRef.current]
    present or not. *)
Definition startRecording (canvas : bool) (bitrate : Z) (now : float) (r : Recorder)
  : Recorder * list Effect :=
  if negb canvas || negb (loaded r)
  then (r, if negb (loaded r)
           then [alert "Video encoder still loading, please wait..."]
           else [])
  else (mkRecorder true [] (loaded r),
        [requestAnimationFrame (mkCapture bitrate now 0)]).

(** [framesRef.current.push(blob)] under [if (blob)]. *)
Definition pushBlob (blob : option Blob) (r : Recorder) : Recorder :=
  match blob with
  | Some bl => mkRecorder (isRecording r) (framesRef r ++ [bl]) (loaded r)
  | None => r
  end.

(** [captureFrame(time)] of the capture [c]: [a >= b] is [b <=? a]. *)
Definition captureFrame (c : Capture) (time : float) (r : Recorder)
  : Recorder * Effect :=
  let elapsed := time - startTime c in
  if totalDuration <=? elapsed
  then (r, encodeVideo (bitrate c))
  else if toNumber (frameCount c) * interval <=? elapsed
  then (pushBlob (toBlob time) r,
        requestAnimationFrame
          (mkCapture (bitrate c) (startTime c) (S (frameCount c))))
  else (r, requestAnimationFrame c).

(** The capture loop over the timestamps of the animation callbacks, in
    the order they fire: the recorder and the closure after the last
    callback that ran, and whether [encodeVideo] was reached (no callback
    is requested after it). *)
Fixpoint captureLoop (times : list float) (c : Capture) (r : Recorder)
  : Recorder * Capture * bool :=
  match times with
  | [] => (r, c, false)
  | time :: rest =>
      match captureFrame c time r with
      | (r', requestAnimationFrame c') => captureLoop rest c' r'
      | (r', _) => (r', c, true)
      end
  end.

(** The number of snapshots the loop has taken ([frameCount]). *)
Definition snapshots (times : list float) (c : Capture) (r : Recorder) : nat :=
  frameCount (snd (fst (captureLoop times c r))).

(** The snapshots of the loop in the order they are taken: the value of
    [frameCount] when [toBlob] is called, and the time of the callback. *)
Fixpoint snapshotLog (times : list float) (c : Capture) (r : Recorder)
  : list (nat * float) :=
  match times with
  | [] => []
  | time :: rest =>
      match captureFrame c time r with
      | (r', requestAnimationFrame c') =>
          (if Nat.ltb (frameCount c) (frameCount c')
           then [(frameCount c, time)] else [])
          ++ snapshotLog rest c' r'
      | (_, _) => []
      end
  end.

(** The expected time of frame [k] as the code computes it,
    [k * interval] in doubles, and the window of frame [k]: the elapsed
    times [time - start] from that boundary up to the next. *)
Definition boundary (k : nat) : float := toNumber k * interval.

Definition inWindow (start : float) (k : nat) (time : float) : Prop :=
  (boundary k <=? time - start) = true /\
  (time - start <? boundary (S k)) = true.

(** Timestamps that grow strictly. *)
Fixpoint increasing (l : list float) : Prop :=
  match l with
  | [] => True
  | x :: rest => (forall y, In y rest -> (x <? y) = true) /\ increasing rest
  end.

(** The elapsed times [time - start] of the callbacks never decrease. *)
Fixpoint elapsedOrdered (start : float) (l : list float) : Prop :=
  match l with
  | [] => True
  | x :: rest =>
      (forall y, In y rest -> (x - start <=? y - start) = true) /\
      elapsedOrdered start rest
  end.

(** Every frame window from [from] on holds the time of a callback. *)
Definition visited (start : float) (from : nat) (times : list float) : Prop :=
  forall k : nat, (from <= k < 600)%nat ->
    exists time : float, In time times /\ inWindow start k time.

(** Callbacks every [step] milliseconds from the start [start] on:
    [n] of them. *)
Definition everyStep (step start : float) (n : nat) : list float :=
  map (fun i => start + toNumber i * step) (seq 0 n).

(** Callbacks on whole milliseconds, one in each of the first [n] sixtieths
    of a second: the first whole millisecond at or after [k * 50 / 3]. *)
Definition wholeMilliseconds (n : nat) : list float :=
  map (fun k => toNumber ((50 * k + 2) / 3)) (seq 0 n).

(** The end of [encodeVideo]: the quality tag in the name of the
    download, then [setIsRecording(false)] and the frames dropped. *)
Definition fileTag (targetBitrate : Z) : string :=
  if (targetBitrate <? 1000000)%Z then "256kb" else "hq".

Definition encodeDone (r : Recorder) : Recorder :=
  mkRecorder false [] (loaded r).

End Canvas.

Arguments mkRecorder {Blob}.
Arguments isRecording {Blob}.
Arguments framesRef {Blob}.
Arguments loaded {Blob}.
Arguments load {Blob}.
Arguments startRecording {Blob}.
Arguments pushBlob {Blob}.
Arguments captureFrame {Blob}.
Arguments captureLoop {Blob}.
Arguments snapshots {Blob}.
Arguments snapshotLog {Blob}.
Arguments encodeDone {Blob}.

End Recorder.

(** ** The page *)

Module Page.

Import PrimFloat Recorder.

Inductive Quality : Type := hq | q256kb.

(** The part of the page [handleExport] reads and writes: the quality
    tier, [resetKey], the recorder of [useCanvasRecorder] with the capture
    whose animation callback is pending, and the timers set by
    [setTimeout] (delay in milliseconds and bit rate of the call of
    [startRecording] they hold). *)
Record Home (Blob : Type) : Type := mkHome {
  quality : Quality;
  resetKey : nat;
  recorder : Recorder Blob;
  capture : option Capture;
  timeouts : list (Q * Z)
}.

Arguments mkHome {Blob}.
Arguments quality {Blob}.
Arguments resetKey {Blob}.
Arguments recorder {Blob}.
Arguments capture {Blob}.
Arguments timeouts {Blob}.

(** [handleExport()]. *)
Definition handleExport {Blob : Type} (h : Home Blob) : Home Blob :=
  if isRecording (recorder h) then h
  else
    let bitrate :=
      match quality h with hq => 25000000%Z | q256kb => 350000%Z end in
    mkHome (quality h) (S (resetKey h)) (recorder h) (capture h)
           (timeouts h ++ [(150%Q, bitrate)]).

(** A page in the middle of a capture: started at time 0, three callbacks
    later. *)
Definition midCapture : Home unit :=
  let started := fst (startRecording true 25000000 0%float (mkRecorder false [] true)) in
  let run := captureLoop (fun _ => Some tt) [0; 10; 20]%float
               (mkCapture 25000000 0%float 0) started in
  mkHome hq 1 (fst (fst run)) (Some (snd (fst run))) [].

End Page.

(** ** The controls of the page *)

Module Editor.

Import Lissajous.

Local Open Scope R_scope.

(** The effect that syncs the physics and timing controls to the sketch
    (the sketch is a [LissajousSketch]): the three physics fields, the two
    durations in frames out of [steps] and [split], and the mode through
    its setter. *)
Definition syncPhysics (stiffness damping mass steps split : R)
  (lissajousMode : Mode) (sketch : LissajousSketch) : LissajousSketch :=
  let sketch := set_stiffness stiffness sketch in
  let sketch := set_damping damping sketch in
  let sketch := set_mass mass sketch in
  let stepDuration := 10 / steps in
  let transitionDuration := stepDuration * split in
  let holdDuration := stepDuration - transitionDuration in
  let sketch := set_holdDuration (holdDuration * 60) sketch in
  let sketch := set_transitionDuration (transitionDuration * 60) sketch in
  set_mode lissajousMode sketch.

(** The value the critical damping calculator passes to [setDamping] when
    [noBounce] is on. *)
Definition criticalDamping (stiffness mass : R) : R :=
  2 * sqrt (stiffness * mass).

(** A new sketch under the initial controls of the page: stiffness 0.025,
    damping 0.283, mass 1, 8 steps, split 0.45, classic mode. *)
Definition initialSketch : LissajousSketch :=
  syncPhysics (25 / 1000) (283 / 1000) 1 8 (45 / 100) classic
    new_LissajousSketch.

End Editor.

(** ** Encoding *)

From Stdlib Require DecimalString DecimalNat.

Module Encoder.

Import Recorder.

Local Open Scope string_scope.

(** [i.toString()] for an index, and [${n}] for an integer. *)
Definition toString (i : nat) : string :=
  DecimalString.NilZero.string_of_uint (Nat.to_uint i).

Definition Z_toString (n : Z) : string :=
  DecimalString.NilZero.string_of_int (Z.to_int n).

Fixpoint zeros (n : nat) : string :=
  match n with
  | O => ""
  | S n' => "0" ++ zeros n'
  end.

(** [s.padStart(targetLength, '0')] *)
Definition padStart (targetLength : nat) (s : string) : string :=
  zeros (targetLength - String.length s) ++ s.

(** [frame${i.toString().padStart(4, '0')}.png] *)
Definition frameFile (i : nat) : string :=
  "frame" ++ padStart 4 (toString i) ++ ".png".

(** [lissajous_10s_${tag}_${Date.now()}.mp4] *)
Definition downloadName (targetBitrate now : Z) : string :=
  "lissajous_10s_" ++ fileTag targetBitrate ++ "_" ++ Z_toString now ++ ".mp4".

Section Calls.

Variable Blob : Type.

(** The awaited calls on the encoder; [fetchFile] of a frame is part of
    its [writeFile]. *)
Inductive FfmpegCall : Type :=
| writeFile (name : string) (data : Blob)
| exec (args : list string)
| readFile (name : string)
| deleteFile (name : string).

(** The arguments of [ffmpeg.exec]. *)
Definition execArgs (targetBitrate : Z) : list string :=
  [ "-framerate"; "60"; "-i"; "frame%04d.png"; "-c:v"; "libx264";
    "-pix_fmt"; "yuv420p"; "-b:v"; Z_toString targetBitrate;
    "-preset"; "ultrafast"; "output.mp4" ].

(** The two loops over [framesRef.current], from the index [i] on. *)
Fixpoint writeFrames (i : nat) (frames : list Blob) : list FfmpegCall :=
  match frames with
  | [] => []
  | blob :: rest => writeFile (frameFile i) blob :: writeFrames (S i) rest
  end.

Fixpoint deleteFrames (i : nat) (frames : list Blob) : list FfmpegCall :=
  match frames with
  | [] => []
  | _ :: rest => deleteFile (frameFile i) :: deleteFrames (S i) rest
  end.

(** The calls of [encodeVideo] in program order. *)
Definition encodeCalls (frames : list Blob) (targetBitrate : Z) : list FfmpegCall :=
  writeFrames 0 frames
  ++ [ exec (execArgs targetBitrate); readFile "output.mp4" ]
  ++ deleteFrames 0 frames
  ++ [ deleteFile "output.mp4" ].

(** The calls that are made when the call number [k] resolves exactly
    when [resolves k]: all of them, or those up to the first that rejects;
    and whether all resolved. *)
Fixpoint issue (resolves : nat -> bool) (k : nat) (calls : list FfmpegCall)
  : list FfmpegCall * bool :=
  match calls with
  | [] => ([], true)
  | call :: rest =>
      if resolves k
      then let '(made, ok) := issue resolves (S k) rest in (call :: made, ok)
      else ([call], false)
  end.

(** [encodeVideo(targetBitrate)] at the time [now], for
    [ffmpegRef.current] present or not: the recorder afterwards, the calls
    made and the name of the download.  The function has no handler: a
    call that rejects ends it where it stands. *)
Definition encodeVideo (targetBitrate : Z) (ffmpeg : bool)
  (resolves : nat -> bool) (now : Z) (r : Recorder Blob)
  : Recorder Blob * list FfmpegCall * option string :=
  let r := mkRecorder true (framesRef r) (loaded r) in
  if negb ffmpeg then (r, [], None)
  else
    let '(made, ok) := issue resolves 0 (encodeCalls (framesRef r) targetBitrate) in
    if ok
    then (mkRecorder false [] (loaded r), made,
          Some (downloadName targetBitrate now))
    else (r, made, None).

End Calls.

Arguments writeFile {Blob}.
Arguments exec {Blob}.
Arguments readFile {Blob}.
Arguments deleteFile {Blob}.
Arguments writeFrames {Blob}.
Arguments deleteFrames {Blob}.
Arguments encodeCalls {Blob}.
Arguments issue {Blob}.
Arguments encodeVideo {Blob}.

End Encoder.

(** ** The render loop *)

Module RenderLoop.

Local Open Scope Q_scope.

(** The variables of the effect of [CanvasSketch]: [startTime],
    [lastTime], [frameCount]. *)
Record Loop : Type := mkLoop {
  startTime : Q;
  lastTime : Q;
  frameCount : nat
}.

(** What [loop] passes to [sketch.draw] besides the surface and the
    theme. *)
Record Tick : Type := mkTick {
  time : Q;
  deltaTime : Q;
  frame : nat
}.

(** The state when the effect starts, at [performance.now() = start]. *)
Definition mount (start : Q) : Loop := mkLoop start start 0.

(** [loop(now)]. *)
Definition loop (now : Q) (l : Loop) : Tick * Loop :=
  let time := (now - startTime l) / 1000 in
  let deltaTime := (now - lastTime l) / 1000 in
  let frameCount := S (frameCount l) in
  (mkTick time deltaTime frameCount, mkLoop (startTime l) now frameCount).

(** The calls of [loop] for the timestamps of the animation callbacks. *)
Fixpoint ticks (nows : list Q) (l : Loop) : list Tick :=
  match nows with
  | [] => []
  | now :: rest => let '(tk, l') := loop now l in tk :: ticks rest l'
  end.

(** The effect: [loop(startTime)] at once, then one call per animation
    callback. *)
Definition run (start : Q) (nows : list Q) : list Tick :=
  ticks (start :: nows) (mount start).

(** The sum of the [deltaTime] of the ticks. *)
Definition totalDelta (l : list Tick) : Q :=
  fold_right (fun tk acc => deltaTime tk + acc) 0 l.

End RenderLoop.

(** ** Boolean comparisons *)

Lemma Rltb_true (x y : R) : Rltb x y = true <-> (x < y)%R.
Proof. unfold Rltb; destruct (Rlt_dec x y); split; intros; try easy. Qed.

Lemma Rltb_false (x y : R) : Rltb x y = false <-> (y <= x)%R.
Proof.
  unfold Rltb; destruct (Rlt_dec x y); split; intros; try easy; lra.
Qed.

Lemma Rleb_true (x y : R) : Rleb x y = true <-> (x <= y)%R.
Proof. unfold Rleb; destruct (Rle_dec x y); split; intros; try easy. Qed.

Lemma Rleb_false (x y : R) : Rleb x y = false <-> (y < x)%R.
Proof.
  unfold Rleb; destruct (Rle_dec x y); split; intros; try easy; lra.
Qed.

Lemma Reqb_true (x y : R) : Reqb x y = true <-> x = y.
Proof. unfold Reqb; destruct (Req_dec_T x y); split; intros; try easy. Qed.

Lemma Reqb_refl (x : R) : Reqb x x = true.
Proof. now apply Reqb_true. Qed.

(** ** The sequencer: ping-pong traversal *)

Module SequencerProps.

Import Lissajous.

Local Open Scope Z_scope.

Lemma array_get_in_range {A : Type} (l : list A) (i : Z) :
  0 <= i < Z.of_nat (length l) -> exists x, array_get l i = Some x.
Proof.
  intros [Hlo Hhi]. unfold array_get.
  destruct (Z.ltb_spec i 0) as [Hneg | _]; [lia |].
  destruct (nth_error l (Z.to_nat i)) as [x |] eqn:Hnth.
  - now exists x.
  - apply nth_error_None in Hnth. lia.
Qed.

Lemma switchTarget_step (s : LissajousSketch) :
  cursor_ok s ->
  exists s', switchTarget s = Some s' /\
    cursor_ok s' /\
    phases s' = phases s /\
    currentPhaseIndex s' <> currentPhaseIndex s /\
    array_get (phases s') (currentPhaseIndex s') = Some (targetParams s') /\
    pingPongStep s s'.
Proof.
  intros (Hlen & Hidx & Hdir).
  unfold switchTarget.
  set (len := Z.of_nat (length (phases s))) in *.
  destruct (Z.leb_spec len (currentPhaseIndex s + direction s)) as [Hhigh | Hin].
  - (* past the last keyframe: only possible at the end going up *)
    assert (Hd : direction s = 1) by lia.
    destruct (array_get_in_range (phases s) (len - 2)) as [p Hp]; [fold len; lia |].
    rewrite Hp. eexists; split; [reflexivity |].
    unfold cursor_ok, pingPongStep; cbn. fold len.
    repeat split; try lia; try assumption.
  - destruct (Z.ltb_spec (currentPhaseIndex s + direction s) 0) as [Hlow | Hge].
    + (* before the first keyframe: only possible at the start going down *)
      assert (Hd : direction s = -1) by lia.
      destruct (array_get_in_range (phases s) 1) as [p Hp]; [fold len; lia |].
      rewrite Hp. eexists; split; [reflexivity |].
      unfold cursor_ok, pingPongStep; cbn. fold len.
      repeat split; try lia; try assumption.
    + destruct (array_get_in_range (phases s) (currentPhaseIndex s + direction s))
        as [p Hp]; [fold len; lia |].
      rewrite Hp. eexists; split; [reflexivity |].
      unfold cursor_ok, pingPongStep; cbn. fold len.
      repeat split; try lia; try assumption.
Qed.

Lemma switchTarget_iter_ok (n : nat) : forall s : LissajousSketch,
  cursor_ok s ->
  exists s', switchTarget_iter n s = Some s' /\
    cursor_ok s' /\ phases s' = phases s.
Proof.
  induction n as [| n IH]; intros s Hs; cbn.
  - now exists s.
  - destruct (switchTarget_step s Hs) as (s1 & -> & Hok & Hph & _).
    destruct (IH s1 Hok) as (s' & Hit & Hok' & Hph').
    exists s'. split; [assumption | split; [assumption | congruence]].
Qed.

(** C2.  From any cursor that is valid for a sequence of at least two
    keyframes, every call of [switchTarget] (the first one and each one
    after any number of earlier calls) succeeds, leaves an index inside the
    sequence that differs from the index before the call, a direction of
    +1 or -1, and a target read at the new index; the direction changes
    only at the last index going up (the new index is [length - 2]) or at
    index 0 going down (the new index is 1), and otherwise the index moves
    one step in the direction. *)
Theorem switchTarget_ping_pong (s : LissajousSketch) (n : nat) :
  cursor_ok s ->
  exists s1 s2,
    switchTarget_iter n s = Some s1 /\
    switchTarget s1 = Some s2 /\
    cursor_ok s2 /\
    phases s2 = phases s /\
    currentPhaseIndex s2 <> currentPhaseIndex s1 /\
    array_get (phases s2) (currentPhaseIndex s2) = Some (targetParams s2) /\
    pingPongStep s1 s2.
Proof.
  intros Hs.
  destruct (switchTarget_iter_ok n s Hs) as (s1 & Hit & Hok1 & Hph1).
  destruct (switchTarget_step s1 Hok1) as (s2 & Hsw & Hok2 & Hph2 & Hne & Hget & Hpp).
  exists s1, s2. repeat (split; [assumption |]).
  split; [congruence |]. repeat (split; [assumption |]). assumption.
Qed.

(** The sketch as constructed, after four calls: the cursor is at the last
    keyframe and the fifth call turns it back. *)
Lemma switchTarget_ping_pong_witness :
  cursor_ok new_LissajousSketch /\
  exists s1 s2,
    switchTarget_iter 4 new_LissajousSketch = Some s1 /\
    switchTarget s1 = Some s2 /\
    cursor_ok s2 /\
    phases s2 = phases new_LissajousSketch /\
    currentPhaseIndex s2 <> currentPhaseIndex s1 /\
    array_get (phases s2) (currentPhaseIndex s2) = Some (targetParams s2) /\
    pingPongStep s1 s2.
Proof.
  assert (H : cursor_ok new_LissajousSketch).
  { unfold cursor_ok. cbn. lia. }
  split; [exact H | exact (switchTarget_ping_pong new_LissajousSketch 4 H)].
Defined.

End SequencerProps.

(** ** The mode setter *)

Module ModeProps.

Import Lissajous.

Lemma Mode_eqb_eq (m1 m2 : Mode) : Mode_eqb m1 m2 = true <-> m1 = m2.
Proof. destruct m1, m2; cbn; split; intros H; congruence. Qed.

Lemma Mode_eqb_refl (m : Mode) : Mode_eqb m m = true.
Proof. now destruct m. Qed.

(** C9.  Setting the mode to its current value returns the sketch as it
    was.  Setting it to a different value stores the new mode, makes the
    velocity zero in its three fields, and keeps every other field:
    current and target parameters, index and direction of the sequencer,
    HOLD/TRANSITION state and timer (and the clocks and the
    configuration). *)
Theorem set_mode_zeroes_velocity_only (v : Mode) (s : LissajousSketch) :
  set_mode (_mode s) s = s /\
  (v <> _mode s ->
   _mode (set_mode v s) = v /\
   currentVelocity (set_mode v s) = mkParams 0 0 0 /\
   sameButModeAndVelocity s (set_mode v s)).
Proof.
  split.
  - unfold set_mode. now rewrite Mode_eqb_refl.
  - intros Hne. unfold set_mode.
    destruct (Mode_eqb (_mode s) v) eqn:E.
    + apply Mode_eqb_eq in E. congruence.
    + cbn. unfold sameButModeAndVelocity. cbn. intuition reflexivity.
Qed.

(** A classic sketch in motion switched to harmonic. *)
Lemma set_mode_zeroes_velocity_only_witness :
  let s := set_currentVelocity (mkParams 1 2 3) new_LissajousSketch in
  _mode (set_mode harmonic s) = harmonic /\
  currentVelocity (set_mode harmonic s) = mkParams 0 0 0 /\
  sameButModeAndVelocity s (set_mode harmonic s).
Proof.
  apply (set_mode_zeroes_velocity_only harmonic
           (set_currentVelocity (mkParams 1 2 3) new_LissajousSketch)).
  discriminate.
Defined.

End ModeProps.

(** ** The spring-damper engine *)

Module EngineProps.

Import Lissajous.

Local Open Scope R_scope.

Lemma sameButMotion_refl (s : LissajousSketch) : sameButMotion s s.
Proof. unfold sameButMotion; intuition reflexivity. Qed.

Lemma sameButMotion_trans (s1 s2 s3 : LissajousSketch) :
  sameButMotion s1 s2 -> sameButMotion s2 s3 -> sameButMotion s1 s3.
Proof. unfold sameButMotion; intuition congruence. Qed.

Lemma snapToTarget_frame (key : Key) (s : LissajousSketch) :
  sameButMotion s (snapToTarget key s).
Proof. unfold sameButMotion, snapToTarget; cbn; intuition reflexivity. Qed.

Lemma integrate_frame (key : Key) (f c : R) (s : LissajousSketch) :
  sameButMotion s (integrate key f c s).
Proof. unfold sameButMotion, integrate; cbn; intuition reflexivity. Qed.

Lemma applySpringForce_frame (key : Key) (s : LissajousSketch) :
  sameButMotion s (applySpringForce key s).
Proof.
  unfold applySpringForce.
  destruct (_mode s) eqn:Hm; cbn [Mode_eqb andb];
    repeat match goal with
      | |- context [if ?c then _ else _] => destruct c
      end;
    eauto using sameButMotion_trans, snapToTarget_frame, integrate_frame,
      sameButMotion_refl.
Qed.

(** After a hard snap the field sits on the target with no velocity. *)
Lemma snapToTarget_at_rest (key : Key) (s : LissajousSketch) :
  get (currentParams (snapToTarget key s)) key = get (targetParams s) key /\
  get (currentVelocity (snapToTarget key s)) key = 0.
Proof. destruct key; cbn; split; reflexivity. Qed.

Lemma clamp_abs (d : R) : clamp (Rabs d) 0 1 = Rmin (Rabs d) 1.
Proof.
  unfold clamp. rewrite Rmax_left; [reflexivity | apply Rabs_pos].
Qed.

Lemma spec_stiffness_eff_k_eff (d : R) : spec_stiffness_eff d = k_eff (Rabs d).
Proof. unfold spec_stiffness_eff, k_eff. now rewrite clamp_abs. Qed.

(** C5.  In harmonic mode, whenever the engine integrates a field (the
    early return has not fired), the velocity and the position it computes
    are those of one explicit Euler step with force [d * stiffness_eff]
    and damping factor [2 * sqrt(mass * stiffness_eff) * zeta]:
    [accel = (force - velocity * damping_eff) / mass], then
    [velocity += accel] and [current += velocity]; the exponent (6) and
    zeta (4) are above 1.  The result of the call is that integrated state,
    unless the snap test after the integration replaces it. *)
Theorem harmonic_integration_formula (key : Key) (s : LissajousSketch) :
  _mode s = harmonic ->
  harmonicEarlySnap key s = false ->
  let d := get (targetParams s) key - get (currentParams s) key in
  let v := get (currentVelocity s) key in
  let c := get (currentParams s) key in
  let v' := fst (spec_harmonic_step (mass s) d v c) in
  let c' := snd (spec_harmonic_step (mass s) d v c) in
  let integrated :=
    set_currentParams (set (currentParams s) key c')
      (set_currentVelocity (set (currentVelocity s) key v') s) in
  get (currentVelocity integrated) key = v + (d * spec_stiffness_eff d
                                         - v * spec_damping_eff (mass s) d) / mass s /\
  get (currentParams integrated) key = c + get (currentVelocity integrated) key /\
  applySpringForce key s =
    (if Rltb (Rabs d) (1 / 10000) && Rltb (Rabs v') (1 / 10000)
     then snapToTarget key integrated
     else integrated) /\
  (1 < tensionPower)%nat /\ 1 < dampZeta.
Proof.
  intros Hm Hearly d v c v' c' integrated.
  assert (Hint : integrate key (d * k_eff (Rabs d))
                   (2 * sqrt (mass s * k_eff (Rabs d)) * dampZeta) s = integrated).
  { unfold integrated, c', v', spec_harmonic_step, spec_damping_eff, integrate.
    rewrite spec_stiffness_eff_k_eff. destruct key; reflexivity. }
  assert (Hv : get (currentVelocity integrated) key = v').
  { unfold integrated. destruct key; reflexivity. }
  repeat split.
  - rewrite Hv. reflexivity.
  - rewrite Hv. unfold integrated. destruct key; reflexivity.
  - unfold applySpringForce. rewrite Hm, Hearly. fold d. cbn [Mode_eqb andb].
    rewrite Hint.
    assert (Hm' : _mode integrated = harmonic) by (unfold integrated; cbn; exact Hm).
    rewrite Hm'. cbn [Mode_eqb]. rewrite Hv. reflexivity.
  - unfold tensionPower. lia.
  - unfold dampZeta. lra.
Qed.

(** *** When the engine snaps *)

Lemma andb_Rltb_true (x1 y1 x2 y2 : R) :
  Rltb x1 y1 && Rltb x2 y2 = true <-> x1 < y1 /\ x2 < y2.
Proof. now rewrite andb_true_iff, !Rltb_true. Qed.

Lemma andb_Rltb_false (x1 y1 x2 y2 : R) :
  Rltb x1 y1 && Rltb x2 y2 = false <-> ~ (x1 < y1 /\ x2 < y2).
Proof.
  rewrite <- andb_Rltb_true. destruct (Rltb x1 y1 && Rltb x2 y2); split; intros H; congruence.
Qed.

Lemma integrate_field (key : Key) (f c : R) (s : LissajousSketch) :
  let v' := get (currentVelocity s) key
            + (f - get (currentVelocity s) key * c) / mass s in
  get (currentVelocity (integrate key f c s)) key = v' /\
  get (currentParams (integrate key f c s)) key = get (currentParams s) key + v' /\
  targetParams (integrate key f c s) = targetParams s.
Proof. destruct key; cbn; repeat split; reflexivity. Qed.

(** The linear profile (classic and table mode): the engine always
    integrates, and then snaps exactly when the displacement before the
    step and the velocity after it are both under 0.001. *)
Lemma linear_snap_rule (key : Key) (s : LissajousSketch) :
  _mode s <> harmonic ->
  let d := get (targetParams s) key - get (currentParams s) key in
  let v := get (currentVelocity s) key in
  let v' := v + (d * stiffness s - v * damping s) / mass s in
  let s' := applySpringForce key s in
  (Rabs d < 1 / 1000 /\ Rabs v' < 1 / 1000 ->
   get (currentParams s') key = get (targetParams s) key /\
   get (currentVelocity s') key = 0) /\
  (~ (Rabs d < 1 / 1000 /\ Rabs v' < 1 / 1000) ->
   get (currentParams s') key = get (currentParams s) key + v' /\
   get (currentVelocity s') key = v').
Proof.
  intros Hm d v v' s'.
  assert (Hs' : s' =
    let s1 := integrate key (d * stiffness s) (damping s) s in
    if Rltb (Rabs d) (1 / 1000) && Rltb (Rabs (get (currentVelocity s1) key)) (1 / 1000)
    then snapToTarget key s1 else s1).
  { unfold s', applySpringForce. fold d.
    destruct (_mode s) eqn:E; try congruence; cbn [Mode_eqb andb];
      rewrite (proj1 (integrate_frame key _ _ s)), E; reflexivity. }
  destruct (integrate_field key (d * stiffness s) (damping s) s) as (Hv & Hc & Ht).
  fold v v' in Hv, Hc. cbv zeta in Hs'. rewrite Hv in Hs'.
  split; intros H.
  - apply andb_Rltb_true in H. rewrite H in Hs'. rewrite Hs'.
    destruct (snapToTarget_at_rest key (integrate key (d * stiffness s) (damping s) s)) as [H1 H2].
    rewrite H1, H2, Ht. split; reflexivity.
  - apply andb_Rltb_false in H. rewrite H in Hs'. rewrite Hs'. split; assumption.
Qed.

(** The harmonic profile has two snap tests: the early return at 1e-5 on
    the displacement and the velocity before the step, and the test after
    the integration, at 1e-4 on the displacement before the step and the
    velocity after it. *)
Lemma harmonic_snap_rule (key : Key) (s : LissajousSketch) :
  _mode s = harmonic ->
  let d := get (targetParams s) key - get (currentParams s) key in
  let v := get (currentVelocity s) key in
  let k := k_eff (Rabs d) in
  let v' := v + (d * k - v * (2 * sqrt (mass s * k) * dampZeta)) / mass s in
  let s' := applySpringForce key s in
  let early := Rabs d < 1 / 100000 /\ Rabs v < 1 / 100000 in
  let late := Rabs d < 1 / 10000 /\ Rabs v' < 1 / 10000 in
  (early \/ late ->
   get (currentParams s') key = get (targetParams s) key /\
   get (currentVelocity s') key = 0) /\
  (~ early /\ ~ late ->
   get (currentParams s') key = get (currentParams s) key + v' /\
   get (currentVelocity s') key = v').
Proof.
  intros Hm d v k v' s' early late.
  set (s1 := integrate key (d * k) (2 * sqrt (mass s * k) * dampZeta) s).
  assert (Hs' : s' =
    if harmonicEarlySnap key s then snapToTarget key s
    else if Rltb (Rabs d) (1 / 10000) && Rltb (Rabs (get (currentVelocity s1) key)) (1 / 10000)
         then snapToTarget key s1 else s1).
  { unfold s', applySpringForce. fold d k s1. rewrite Hm. cbn [Mode_eqb andb].
    unfold s1 at 1 2. rewrite (proj1 (integrate_frame key _ _ s)), Hm. reflexivity. }
  destruct (integrate_field key (d * k) (2 * sqrt (mass s * k) * dampZeta) s) as (Hv & Hc & Ht).
  fold v v' s1 in Hv, Hc, Ht. rewrite Hv in Hs'.
  unfold harmonicEarlySnap in Hs'. fold d v in Hs'.
  destruct (Rltb (Rabs d) (1 / 100000) && Rltb (Rabs v) (1 / 100000)) eqn:He;
    [apply andb_Rltb_true in He | apply andb_Rltb_false in He].
  - rewrite Hs'. split; [intros _ | intros [Hne _]; contradiction].
    apply snapToTarget_at_rest.
  - destruct (Rltb (Rabs d) (1 / 10000) && Rltb (Rabs v') (1 / 10000)) eqn:Hl;
      [apply andb_Rltb_true in Hl | apply andb_Rltb_false in Hl]; rewrite Hs'.
    + split; [intros _ | intros [_ Hnl]; contradiction].
      destruct (snapToTarget_at_rest key s1) as [H1 H2].
      rewrite H1, H2, Ht. split; reflexivity.
    + split; [intros [H | H]; contradiction | intros _]. split; assumption.
Qed.

(** *** The engine on concrete states *)

Lemma k_eff_far (x : R) : 1 <= x -> k_eff x = 1.
Proof.
  intros Hx. unfold k_eff, minStiffness, maxStiffness, tensionPower.
  rewrite Rmin_right by exact Hx. cbn. lra.
Qed.

Lemma k_eff_bounds (x : R) : 0 <= x -> 1 / 100000 <= k_eff x <= 1.
Proof.
  intros Hx. unfold k_eff, minStiffness, maxStiffness, tensionPower.
  assert (H0 : 0 <= Rmin x 1) by (apply Rmin_glb; lra).
  assert (H1 : Rmin x 1 <= 1) by apply Rmin_r.
  assert (Hp0 : 0 <= Rmin x 1 ^ 6) by (apply pow_le; exact H0).
  assert (Hp1 : Rmin x 1 ^ 6 <= 1).
  { replace 1 with (1 ^ 6) at 2 by (cbn; lra). apply pow_incr. lra. }
  lra.
Qed.

Lemma k_eff_near (x : R) : 0 <= x <= 1 -> k_eff x <= 1 / 100000 + x.
Proof.
  intros [H0 H1]. unfold k_eff, minStiffness, maxStiffness, tensionPower.
  rewrite Rmin_left by exact H1.
  assert (Hp0 : 0 <= x ^ 5) by (apply pow_le; exact H0).
  assert (Hp1 : x ^ 5 <= 1).
  { replace 1 with (1 ^ 5) by (cbn; lra). apply pow_incr. lra. }
  replace (x ^ 6) with (x * x ^ 5) by (cbn; ring).
  nra.
Qed.

(** From rest, a harmonic step that does not snap multiplies the
    displacement by [1 - k_eff / mass]: it passes the target as soon as the
    effective stiffness exceeds the mass. *)
Lemma harmonic_step_from_rest (key : Key) (s : LissajousSketch) :
  _mode s = harmonic ->
  0 < mass s ->
  get (currentVelocity s) key = 0 ->
  let d := get (targetParams s) key - get (currentParams s) key in
  1 / 10000 <= Rabs d ->
  let s' := applySpringForce key s in
  get (targetParams s') key - get (currentParams s') key =
  d * (1 - k_eff (Rabs d) / mass s).
Proof.
  intros Hm Hmass Hv d Hd s'.
  destruct (harmonic_snap_rule key s Hm) as [_ Hrun].
  fold d s' in Hrun. rewrite Hv in Hrun.
  destruct Hrun as [Hc _]; [split; intros [H _]; lra |].
  assert (Ht : targetParams s' = targetParams s) by apply (applySpringForce_frame key s).
  rewrite Ht, Hc. unfold d. field. lra.
Qed.

(** C4, on the code.  Mass 0.5, field [b] at rest on 1 with target 2: one
    call of the engine in harmonic mode puts the field on 3.  The
    displacement goes from +1 to -1 in a single integration step. *)
Theorem harmonic_step_overshoots :
  let s := harmonicAt (1 / 2) 1 0 2 in
  let s' := applySpringForce key_b s in
  0 < mass s /\
  get (currentVelocity s) key_b = 0 /\
  get (targetParams s) key_b - get (currentParams s) key_b = 1 /\
  get (currentParams s') key_b = 3 /\
  get (targetParams s') key_b - get (currentParams s') key_b = -1.
Proof.
  intros s s'.
  assert (Hm : _mode s = harmonic) by reflexivity.
  destruct (harmonic_snap_rule key_b s Hm) as [_ Hrun].
  fold s' in Hrun. cbn [s harmonicAt get targetParams currentParams currentVelocity b mass] in Hrun.
  replace (2 - 1) with 1 in Hrun by lra.
  rewrite Rabs_R1, (k_eff_far 1) in Hrun by lra.
  destruct Hrun as [Hc Hv]; [split; intros [H _]; lra |].
  assert (Ht : targetParams s' = targetParams s) by apply (applySpringForce_frame key_b s).
  rewrite Ht. cbn [s harmonicAt get targetParams currentParams currentVelocity b mass].
  rewrite Hc. repeat split; try lra.
Qed.

(** C6, on the code.  Mass 1, field [b] at rest on 1.99995 with target 2,
    harmonic mode: the displacement 0.00005 is outside the 1e-5 threshold
    and the early return does not fire; the Euler step alone would leave a
    positive velocity and a position short of the target; yet the call
    ends with the field snapped on the target with no velocity, by the
    test after the integration, whose harmonic thresholds are 1e-4. *)
Theorem harmonic_snaps_outside_fine_threshold :
  let s := harmonicAt 1 (2 - 5 / 100000) 0 2 in
  let d := get (targetParams s) key_b - get (currentParams s) key_b in
  let euler := spec_harmonic_step (mass s) d 0 (get (currentParams s) key_b) in
  let s' := applySpringForce key_b s in
  1 / 100000 <= Rabs d /\
  harmonicEarlySnap key_b s = false /\
  0 < fst euler /\ snd euler < 2 /\
  get (currentParams s') key_b = 2 /\
  get (currentVelocity s') key_b = 0.
Proof.
  intros s d euler s'.
  assert (Hd : d = 5 / 100000) by (unfold d; cbn; lra).
  assert (Habs : Rabs d = 5 / 100000) by (rewrite Hd; apply Rabs_pos_eq; lra).
  assert (Hk : 1 / 100000 <= k_eff (Rabs d) <= 1) by (apply k_eff_bounds; rewrite Habs; lra).
  assert (Hk' : k_eff (Rabs d) <= 1 / 100000 + Rabs d) by (apply k_eff_near; rewrite Habs; lra).
  rewrite Habs in Hk' at 2.
  assert (Hv : fst euler = d * k_eff (Rabs d)).
  { unfold euler, spec_harmonic_step. cbn [fst mass s harmonicAt].
    rewrite spec_stiffness_eff_k_eff. field. }
  assert (Hc : snd euler = 2 - 5 / 100000 + fst euler).
  { unfold euler, spec_harmonic_step. cbn. reflexivity. }
  split; [rewrite Habs; lra |].
  split.
  { unfold harmonicEarlySnap. fold d. apply andb_Rltb_false. rewrite Habs. intros [H _]; lra. }
  destruct (harmonic_snap_rule key_b s eq_refl) as [Hsnap _].
  fold d s' in Hsnap.
  cbn [s harmonicAt get targetParams currentVelocity b mass] in Hsnap.
  replace (0 + (d * k_eff (Rabs d) - 0 * (2 * sqrt (1 * k_eff (Rabs d)) * dampZeta)) / 1)
    with (d * k_eff (Rabs d)) in Hsnap by field.
  set (K := k_eff (Rabs d)) in *. clearbody K.
  assert (Hpos : 0 < d * K) by (rewrite Hd; nra).
  assert (Hsmall : d * K < 1 / 10000) by (rewrite Hd; nra).
  split; [rewrite Hv; exact Hpos |].
  split; [rewrite Hc, Hv; rewrite Hd in *; lra |].
  apply Hsnap. right. rewrite Habs. split; [lra |].
  rewrite Rabs_pos_eq; lra.
Qed.

(** The same state under the formula of the harmonic step. *)
Lemma harmonic_integration_formula_witness :
  let s := harmonicAt 1 1 0 2 in
  let d := get (targetParams s) key_b - get (currentParams s) key_b in
  let v := get (currentVelocity s) key_b in
  let c := get (currentParams s) key_b in
  let v' := fst (spec_harmonic_step (mass s) d v c) in
  let c' := snd (spec_harmonic_step (mass s) d v c) in
  let integrated :=
    set_currentParams (set (currentParams s) key_b c')
      (set_currentVelocity (set (currentVelocity s) key_b v') s) in
  applySpringForce key_b s =
    (if Rltb (Rabs d) (1 / 10000) && Rltb (Rabs v') (1 / 10000)
     then snapToTarget key_b integrated
     else integrated).
Proof.
  assert (He : harmonicEarlySnap key_b (harmonicAt 1 1 0 2) = false).
  { apply andb_Rltb_false. cbn. replace (2 - 1) with 1 by lra. rewrite Rabs_R1.
    intros [H _]; lra. }
  exact (proj1 (proj2 (proj2
    (harmonic_integration_formula key_b (harmonicAt 1 1 0 2) eq_refl He)))).
Defined.

End EngineProps.

(** ** The HOLD/TRANSITION machine *)

Module MachineProps.

Import Lissajous EngineProps.

Local Open Scope R_scope.

Lemma isSettled_true (s : LissajousSketch) : isSettled s = true <-> settled s.
Proof.
  unfold isSettled, settled. rewrite !andb_true_iff, !Reqb_true. tauto.
Qed.

(** The physics of a frame: the timer has advanced by one, and the mode,
    the state, the target and the configuration are as before. *)
Lemma advancePhysics_frame (s : LissajousSketch) :
  timer (advancePhysics s) = timer s + 1 /\
  t (advancePhysics s) = t s + timeStep s /\
  _mode (advancePhysics s) = _mode s /\
  state (advancePhysics s) = state s /\
  targetParams (advancePhysics s) = targetParams s /\
  holdDuration (advancePhysics s) = holdDuration s /\
  transitionDuration (advancePhysics s) = transitionDuration s.
Proof.
  unfold advancePhysics.
  set (s0 := set_timer (timer (set_t (t s + timeStep s) s) + 1)
               (set_t (t s + timeStep s) s)).
  pose proof (applySpringForce_frame key_a s0) as Ha.
  pose proof (applySpringForce_frame key_b (applySpringForce key_a s0)) as Hb.
  pose proof (applySpringForce_frame key_delta
                (applySpringForce key_b (applySpringForce key_a s0))) as Hd.
  pose proof (sameButMotion_trans _ _ _ (sameButMotion_trans _ _ _ Ha Hb) Hd) as H.
  unfold sameButMotion in H. cbn in H.
  intuition congruence.
Qed.

(** C3.  A frame of [updateLogic] in TRANSITION always yields a sketch.
    With [p] the sketch after the clocks and the engine have run: in
    harmonic mode the transition completes (the state is HOLD afterwards)
    exactly when current equals target on the three fields of [p] or the
    advanced timer is above 1800; in the other modes exactly when the
    advanced timer has reached [transitionDuration].  On completion
    current is the target, the velocity is zero in its three fields, the
    state is HOLD and the timer is 0; otherwise the frame leaves [p], still
    in TRANSITION. *)
Theorem transition_completion (s : LissajousSketch) :
  state s = TRANSITION ->
  let p := advancePhysics s in
  exists s', updateLogic s = Some s' /\
    (_mode s = harmonic ->
     (state s' = HOLD <-> settled p \/ 1800 < timer s + 1)) /\
    (_mode s <> harmonic ->
     (state s' = HOLD <-> transitionDuration s <= timer s + 1)) /\
    (state s' = HOLD ->
     currentParams s' = targetParams s' /\
     currentVelocity s' = mkParams 0 0 0 /\
     timer s' = 0 /\
     targetParams s' = targetParams s) /\
    (state s' <> HOLD -> s' = p /\ state s' = TRANSITION).
Proof.
  intros Hst p.
  destruct (advancePhysics_frame s) as (Htimer & _ & Hmode & Hstate & Htarget & _ & Hdur).
  fold p in Htimer, Hmode, Hstate, Htarget, Hdur.
  assert (Hfin : shouldFinish p = true <->
                 if Mode_eqb (_mode s) harmonic
                 then settled p \/ 1800 < timer s + 1
                 else transitionDuration s <= timer s + 1).
  { unfold shouldFinish, Rgtb, Rgeb. rewrite Hmode, Htimer, Hdur.
    destruct (_mode s); cbn [Mode_eqb];
      rewrite ?orb_true_iff, ?isSettled_true, ?Rltb_true, ?Rleb_true; tauto. }
  unfold updateLogic. fold p. rewrite Hstate, Hst.
  destruct (shouldFinish p) eqn:Hsf.
  - eexists; split; [reflexivity |]. cbn.
    assert (Hyes := proj1 Hfin eq_refl).
    repeat split; intros; try congruence.
    + destruct (_mode s); cbn in Hyes; try discriminate; assumption.
    + destruct (_mode s); cbn in Hyes; try congruence; assumption.
  - exists p; split; [reflexivity |].
    assert (Hno : ~ (if Mode_eqb (_mode s) harmonic
                     then settled p \/ 1800 < timer s + 1
                     else transitionDuration s <= timer s + 1)).
    { intros H. apply Hfin in H. discriminate. }
    rewrite Hstate, Hst.
    repeat split; intros; try congruence; try discriminate.
    + exfalso. apply Hno. destruct (_mode s); cbn; try discriminate; assumption.
    + exfalso. apply Hno. destruct (_mode s); cbn; try congruence; assumption.
Qed.

Lemma transition_completion_witness :
  exists s', updateLogic lastTransitionFrame = Some s' /\
    state s' = HOLD /\
    currentParams s' = mkParams 1 2 (PI / 2) /\
    currentVelocity s' = mkParams 0 0 0 /\
    timer s' = 0.
Proof.
  destruct (transition_completion lastTransitionFrame eq_refl)
    as (s' & Hup & _ & Hclassic & Hdone & _).
  assert (Hhold : state s' = HOLD).
  { apply Hclassic; [discriminate | cbn; lra]. }
  destruct (Hdone Hhold) as (Hc & Hv & Ht & Htg).
  exists s'. repeat split; try assumption.
  rewrite Hc, Htg. reflexivity.
Defined.

End MachineProps.

(** ** Drawing in harmonic mode *)

Module DrawProps.

Import Lissajous.

Local Open Scope R_scope.

Lemma polyline_length (samples : nat) (point : nat -> R * R) :
  length (polyline samples point) = S samples.
Proof. unfold polyline. now rewrite length_map, length_seq. Qed.

Lemma polyline_nth (samples : nat) (point : nat -> R * R) (i : nat) :
  (i <= samples)%nat ->
  nth_error (polyline samples point) i =
  Some (if Nat.eqb i 0 then moveTo (fst (point i)) (snd (point i))
        else lineTo (fst (point i)) (snd (point i))).
Proof.
  intros Hi. unfold polyline.
  rewrite nth_error_map, nth_error_seq.
  destruct (Nat.ltb_spec i (S samples)) as [_ | Hge]; [| lia].
  cbn. destruct (point i); reflexivity.
Qed.

Lemma nth_error_after {A : Type} (pre mid rest : list A) (n j : nat) :
  (length pre + length mid)%nat = n ->
  nth_error (pre ++ mid ++ rest) (n + j) = nth_error rest j.
Proof.
  intros <-.
  rewrite nth_error_app2 by lia.
  rewrite nth_error_app2 by lia.
  f_equal. lia.
Qed.

(** C10.  [drawHarmonic] reads the sketch through [t] only: two sketches
    with the same [t] (whatever their current, target and velocity
    parameters, their sequencer index and direction, their state and
    timer) give the same drawing for the same surface and theme.  The
    traced curve is the one of the constants 1, 1 and pi/2: its sample
    [i] is the point [(sin(1 * u + pi/2), sin(1 * u))] at
    [u = i / 2000 * 2 pi], scaled and centred.  The moving point is the
    point of the same constants at [u = t]: after the 2006 operations of
    the curve come the 39 of the mechanism, in which the two springs end
    at the masses above and left of the point, the masses are the squares
    there, the two projectors run from the masses to the point, and the
    last operation fills the square of side 20 centred on the point. *)
Theorem drawHarmonic_ignores_parameters
  (s1 s2 : LissajousSketch) (width height : R) (theme : Theme) :
  t s1 = t s2 ->
  drawHarmonic s1 width height theme = drawHarmonic s2 width height theme /\
  (forall i : nat, (i <= 2000)%nat ->
    let u := INR i / INR 2000 * (PI * 2) in
    let scale := Rmin width height * (35 / 100) in
    let sx := width / 2 + 1 * sin (1 * u + PI / 2) * scale in
    let sy := height / 2 + 1 * sin (1 * u) * scale in
    nth_error (drawHarmonic s1 width height theme) (5 + i) =
    Some (if Nat.eqb i 0 then moveTo sx sy else lineTo sx sy)) /\
  let scale := Rmin width height * (35 / 100) in
  let px := width / 2 + 1 * sin (1 * t s1 + PI / 2) * scale in
  let py := height / 2 + 1 * sin (1 * t s1) * scale in
  let trackY := height / 2 - scale * (12 / 10) in
  let trackX := width / 2 - scale * (12 / 10) in
  let mechanism := fun j : nat =>
    nth_error (drawHarmonic s1 width height theme) (2006 + j) in
  length (drawHarmonic s1 width height theme) = (2006 + 39)%nat /\
  mechanism 14%nat = Some (moveTo (width / 2 - scale) trackY) /\
  mechanism 15%nat = Some (lineTo px trackY) /\
  mechanism 20%nat = Some (moveTo trackX (height / 2 - scale)) /\
  mechanism 21%nat = Some (lineTo trackX py) /\
  mechanism 24%nat = Some (fillRect (px - 20 / 2) (trackY - 20 / 2) 20 20) /\
  mechanism 25%nat = Some (fillRect (trackX - 20 / 2) (py - 20 / 2) 20 20) /\
  mechanism 30%nat = Some (moveTo px trackY) /\
  mechanism 31%nat = Some (lineTo px py) /\
  mechanism 34%nat = Some (moveTo trackX py) /\
  mechanism 35%nat = Some (lineTo px py) /\
  mechanism 38%nat = Some (fillRect (px - 20 / 2) (py - 20 / 2) 20 20).
Proof.
  intros Ht. split; [| split].
  - unfold drawHarmonic. rewrite Ht. reflexivity.
  - intros i Hi u scale sx sy. unfold drawHarmonic.
    rewrite nth_error_app2 by (cbn; lia).
    replace (5 + i - _)%nat with i by (cbn; lia).
    rewrite nth_error_app1 by (rewrite polyline_length; lia).
    rewrite polyline_nth by exact Hi. reflexivity.
  - cbv zeta. split.
    + unfold drawHarmonic, drawSpring.
      rewrite !length_app, polyline_length. reflexivity.
    + repeat split; unfold drawHarmonic;
        (rewrite nth_error_after by (rewrite polyline_length; reflexivity));
        reflexivity.
Qed.

(** The sketch as constructed and the same sketch at the last keyframe,
    on the 1080 x 1350 surface. *)
Lemma drawHarmonic_ignores_parameters_witness :
  let s1 := new_LissajousSketch in
  let s2 := set_targetParams (mkParams 3 5 (PI / 2))
              (set_currentParams (mkParams 3 (9 / 2) (PI / 2))
                 (set_currentPhaseIndex 4 new_LissajousSketch)) in
  let theme := mkTheme "#E4FF60" "#BBBBBB" in
  drawHarmonic s1 1080 1350 theme = drawHarmonic s2 1080 1350 theme.
Proof.
  exact (proj1 (drawHarmonic_ignores_parameters new_LissajousSketch
                  (set_targetParams (mkParams 3 5 (PI / 2))
                     (set_currentParams (mkParams 3 (9 / 2) (PI / 2))
                        (set_currentPhaseIndex 4 new_LissajousSketch)))
                  1080 1350 (mkTheme "#E4FF60" "#BBBBBB") eq_refl)).
Defined.

End DrawProps.

(** ** The order of doubles *)

Module FloatOrder.

Import SpecFloat PrimFloat.

Local Open Scope float_scope.

Ltac compare_cases :=
  repeat match goal with
  | H : context [Z.compare ?a ?b] |- _ =>
      destruct (Z.compare_spec a b); subst
  | |- context [Z.compare ?a ?b] =>
      destruct (Z.compare_spec a b); subst
  | H : context [Pos.compare_cont Eq ?a ?b] |- _ =>
      change (Pos.compare_cont Eq a b) with (Pos.compare a b) in *;
      destruct (Pos.compare_spec a b); subst
  | |- context [Pos.compare_cont Eq ?a ?b] =>
      change (Pos.compare_cont Eq a b) with (Pos.compare a b) in *;
      destruct (Pos.compare_spec a b); subst
  end.

Ltac float_order :=
  unfold SFleb, SFltb, SFcompare;
  repeat match goal with
  | f : spec_float |- _ => destruct f
  | s : bool |- _ => destruct s
  end;
  intros; try discriminate; try reflexivity;
  compare_cases; cbn [CompOpp] in *;
  try discriminate; try reflexivity; try lia.

(** The comparisons of the specification of binary64. *)
Lemma SFleb_trans (f g h : spec_float) :
  SFleb f g = true -> SFleb g h = true -> SFleb f h = true.
Proof. float_order. Qed.

Lemma SFleb_SFltb_trans (f g h : spec_float) :
  SFleb f g = true -> SFltb g h = true -> SFltb f h = true.
Proof. float_order. Qed.

Lemma SFltb_irrefl (f : spec_float) : SFltb f f = false.
Proof. float_order. Qed.

Lemma SFleb_number (f g : spec_float) : SFleb f g = true -> SFleb g g = true.
Proof. float_order. Qed.

Lemma SFleb_total (f g : spec_float) :
  SFleb f f = true -> SFleb g g = true -> SFleb f g = false -> SFltb g f = true.
Proof. float_order. Qed.

(** The same for the primitive comparisons [<=?] and [<?]. *)
Lemma leb_trans (x y z : float) :
  (x <=? y) = true -> (y <=? z) = true -> (x <=? z) = true.
Proof. rewrite !FloatAxioms.leb_spec. apply SFleb_trans. Qed.

Lemma leb_ltb_trans (x y z : float) :
  (x <=? y) = true -> (y <? z) = true -> (x <? z) = true.
Proof. rewrite FloatAxioms.leb_spec, !FloatAxioms.ltb_spec. apply SFleb_SFltb_trans. Qed.

Lemma ltb_irrefl (x : float) : (x <? x) = false.
Proof. rewrite FloatAxioms.ltb_spec. apply SFltb_irrefl. Qed.

(** What is at or above a number is a number (not NaN), and of two
    numbers one is at most the other or the other is below it. *)
Lemma leb_number (x y : float) : (x <=? y) = true -> (y <=? y) = true.
Proof. rewrite !FloatAxioms.leb_spec. apply SFleb_number. Qed.

Lemma leb_total (x y : float) :
  (x <=? x) = true -> (y <=? y) = true -> (x <=? y) = false -> (y <? x) = true.
Proof. rewrite !FloatAxioms.leb_spec, FloatAxioms.ltb_spec. apply SFleb_total. Qed.

(** No number is both at or above a bound and below it. *)
Lemma leb_ltb_false (x y : float) :
  (x <=? y) = true -> (y <? x) = true -> False.
Proof.
  intros H1 H2. pose proof (leb_ltb_trans _ _ _ H1 H2) as H.
  rewrite ltb_irrefl in H. discriminate.
Qed.

End FloatOrder.

(** ** The capture loop *)

Module CaptureProps.

Import PrimFloat Recorder FloatOrder.

Local Open Scope float_scope.

(** The 601 frame boundaries, computed: each is a number, and they never
    decrease. *)
Lemma boundary_table :
  forallb (fun k => (boundary k <=? boundary k) && (boundary k <=? boundary (S k)))
          (seq 0 600) = true.
Proof. vm_compute. reflexivity. Qed.

Lemma boundary_step (k : nat) :
  (k < 600)%nat ->
  (boundary k <=? boundary k) = true /\ (boundary k <=? boundary (S k)) = true.
Proof.
  intros Hk. pose proof boundary_table as H. rewrite forallb_forall in H.
  apply andb_prop, H, in_seq. lia.
Qed.

(** In doubles [600 * (1000 / 60)] is exactly 10000. *)
Lemma boundary_600 :
  (boundary 600 <=? totalDuration) = true /\ (totalDuration <=? boundary 600) = true.
Proof. split; vm_compute; reflexivity. Qed.

Lemma boundary_refl (k : nat) : (k <= 600)%nat -> (boundary k <=? boundary k) = true.
Proof.
  intros Hk. destruct (Nat.eq_dec k 600) as [-> | Hne].
  - destruct boundary_600 as [H1 H2].
    exact (leb_trans (boundary 600) totalDuration (boundary 600) H1 H2).
  - apply boundary_step. lia.
Qed.

Lemma boundary_mono (j k : nat) :
  (j <= k)%nat -> (k <= 600)%nat -> (boundary j <=? boundary k) = true.
Proof.
  intros Hjk. induction Hjk as [| k Hjk IH]; intros Hk.
  - now apply boundary_refl.
  - apply (leb_trans _ (boundary k)); [apply IH; lia | apply boundary_step; lia].
Qed.

(** A boundary that an elapsed time short of the total duration has
    reached belongs to one of the 600 frames. *)
Lemma boundary_below_total (k : nat) (elapsed : float) :
  (k <= 600)%nat ->
  (boundary k <=? elapsed) = true ->
  (totalDuration <=? elapsed) = false ->
  (k < 600)%nat.
Proof.
  intros Hk Hdue Hlt. destruct (Nat.eq_dec k 600) as [-> | Hne]; [| lia].
  destruct boundary_600 as [_ H].
  rewrite (leb_trans totalDuration (boundary 600) elapsed H Hdue) in Hlt.
  discriminate.
Qed.

(** The end of a window of one of the 600 frames is within the total
    duration. *)
Lemma window_within_total (k : nat) :
  (k < 600)%nat -> (boundary (S k) <=? totalDuration) = true.
Proof.
  intros H.
  exact (leb_trans (boundary (S k)) (boundary 600) totalDuration
           (boundary_mono (S k) 600 H (Nat.le_refl 600)) (proj1 boundary_600)).
Qed.

Section Loop.

Context {Blob : Type} (toBlob : float -> option Blob).

(** The three cases of [captureFrame]. *)
Lemma captureFrame_cases (c : Capture) (time : float) (r : Recorder Blob) :
  ((totalDuration <=? time - startTime c) = true /\
   captureFrame toBlob c time r = (r, encodeVideo (bitrate c)))
  \/ ((totalDuration <=? time - startTime c) = false /\
      (boundary (frameCount c) <=? time - startTime c) = true /\
      captureFrame toBlob c time r =
        (pushBlob (toBlob time) r,
         requestAnimationFrame
           (mkCapture (bitrate c) (startTime c) (S (frameCount c)))))
  \/ ((totalDuration <=? time - startTime c) = false /\
      (boundary (frameCount c) <=? time - startTime c) = false /\
      captureFrame toBlob c time r = (r, requestAnimationFrame c)).
Proof.
  unfold captureFrame. fold (boundary (frameCount c)).
  destruct (totalDuration <=? time - startTime c) eqn:Hstop.
  - left. now split.
  - destruct (boundary (frameCount c) <=? time - startTime c) eqn:Hdue.
    + right; left. now repeat split.
    + right; right. now repeat split.
Qed.

(** Whatever the callbacks, the loop takes at most one snapshot per
    callback and never more than 600. *)
Lemma snapshots_bounded (times : list float) : forall (c : Capture) (r : Recorder Blob),
  (frameCount c <= 600)%nat ->
  (snapshots toBlob times c r <= 600)%nat /\
  (snapshots toBlob times c r <= frameCount c + length times)%nat.
Proof.
  unfold snapshots.
  induction times as [| time rest IH]; intros c r Hc; cbn [captureLoop].
  - cbn. lia.
  - destruct (captureFrame_cases c time r)
      as [[_ ->] | [(Hlt & Hdue & ->) | (_ & _ & ->)]].
    + cbn. lia.
    + pose proof (boundary_below_total _ _ Hc Hdue Hlt) as Hk.
      destruct (IH (mkCapture (bitrate c) (startTime c) (S (frameCount c)))
                   (pushBlob (toBlob time) r)) as [H1 H2]; [cbn; lia |].
      cbn in H2. cbn [length]. lia.
    + destruct (IH c r Hc) as [H1 H2]. cbn [length]. lia.
Qed.

(** Once a callback has an elapsed time of 10000 ms or more, the loop has
    reached [encodeVideo]. *)
Lemma captureLoop_stops (times : list float) : forall (c : Capture) (r : Recorder Blob),
  (exists time, In time times /\ (totalDuration <=? time - startTime c) = true) ->
  snd (captureLoop toBlob times c r) = true.
Proof.
  induction times as [| time rest IH]; intros c r (x & Hin & Hx).
  - destruct Hin.
  - cbn [captureLoop].
    destruct (captureFrame_cases c time r)
      as [[_ ->] | [(Hlt & _ & ->) | (Hlt & _ & ->)]].
    + reflexivity.
    + apply IH. cbn [startTime]. destruct Hin as [<- | Hin].
      * congruence.
      * now exists x.
    + apply IH. destruct Hin as [<- | Hin].
      * congruence.
      * now exists x.
Qed.

(** When every window still to come holds a callback, the loop takes the
    snapshot of each of them inside that window, in order, and ends on
    600. *)
Lemma capture_follows_windows (times : list float) :
  forall (c : Capture) (r : Recorder Blob),
  elapsedOrdered (startTime c) times ->
  (frameCount c <= 600)%nat ->
  visited (startTime c) (frameCount c) times ->
  snapshots toBlob times c r = 600%nat /\
  map fst (snapshotLog toBlob times c r) = seq (frameCount c) (600 - frameCount c) /\
  Forall (fun e => inWindow (startTime c) (fst e) (snd e))
         (snapshotLog toBlob times c r).
Proof.
  unfold snapshots.
  induction times as [| time rest IH]; intros c r Hinc Hc Hvis.
  - assert (Hn : frameCount c = 600%nat).
    { destruct (Nat.eq_dec (frameCount c) 600) as [E | E]; [exact E |].
      destruct (Hvis (frameCount c)) as (x & [] & _). lia. }
    cbn [captureLoop snapshotLog fst snd map].
    split; [exact Hn |].
    split; [rewrite Hn, Nat.sub_diag; reflexivity | constructor].
  - destruct Hinc as [Hhead Hinc].
    cbn [captureLoop snapshotLog].
    destruct (captureFrame_cases c time r)
      as [[Hstop ->] | [(Hlt & Hdue & ->) | (Hlt & Hearly & ->)]].
    + (* encodeVideo: every window has been served *)
      assert (Hn : frameCount c = 600%nat).
      { destruct (Nat.eq_dec (frameCount c) 600) as [E | E]; [exact E |].
        assert (Hk : (frameCount c < 600)%nat) by lia.
        destruct (Hvis (frameCount c)) as (x & Hin & _ & Hx); [lia |].
        pose proof (window_within_total _ Hk) as Hw.
        exfalso. destruct Hin as [<- | Hin].
        - exact (leb_ltb_false _ _ (leb_trans _ _ _ Hw Hstop) Hx).
        - apply (leb_ltb_false _ _ (leb_trans _ _ _ Hw Hstop)).
          exact (leb_ltb_trans _ _ _ (Hhead x Hin) Hx). }
      cbn [fst snd map].
      split; [exact Hn |].
      split; [rewrite Hn, Nat.sub_diag; reflexivity | constructor].
    + (* a snapshot: the callback lies in the window of [frameCount] *)
      pose proof (boundary_below_total _ _ Hc Hdue Hlt) as Hk.
      assert (Hend : (time - startTime c <? boundary (S (frameCount c))) = true).
      { destruct (Hvis (frameCount c)) as (y & Hy & _ & Hy1); [lia |].
        destruct Hy as [<- | Hy]; [exact Hy1 |].
        exact (leb_ltb_trans _ _ _ (Hhead y Hy) Hy1). }
      destruct (IH (mkCapture (bitrate c) (startTime c) (S (frameCount c)))
                   (pushBlob (toBlob time) r)) as (H600 & Hidx & Hwin).
      * exact Hinc.
      * cbn. lia.
      * cbn [startTime frameCount]. intros k Hk'.
        destruct (Hvis k) as (x & [<- | Hin] & Hx0 & Hx1); [lia | | now exists x].
        assert (Hb : (boundary (S (frameCount c)) <=? boundary k) = true)
          by (apply boundary_mono; lia).
        exfalso. exact (leb_ltb_false _ _ (leb_trans _ _ _ Hb Hx0) Hend).
      * cbn [startTime frameCount] in *.
        rewrite (proj2 (Nat.ltb_lt _ _) (Nat.lt_succ_diag_r (frameCount c))).
        cbn [app map fst]. rewrite Hidx.
        split; [exact H600 |]. split.
        -- replace (600 - frameCount c)%nat with (S (600 - S (frameCount c))) by lia.
           reflexivity.
        -- constructor; [| exact Hwin]. cbn [fst snd]. split; [exact Hdue | exact Hend].
    + (* too early for the next frame *)
      destruct (IH c r) as (H600 & Hidx & Hwin).
      * exact Hinc.
      * exact Hc.
      * intros k Hk'.
        destruct (Hvis k) as (x & [<- | Hin] & Hx0 & Hx1); [lia | | now exists x].
        assert (Hb : (boundary (frameCount c) <=? boundary k) = true)
          by (apply boundary_mono; lia).
        rewrite (leb_trans _ _ _ Hb Hx0) in Hearly. discriminate.
      * rewrite Nat.ltb_irrefl. cbn [app].
        split; [exact H600 |]. split; assumption.
Qed.

(** [framesRef] after the loop: the frames it had, then the blobs of the
    snapshots that were not null, in the order of the snapshots. *)
Lemma frames_follow_snapshots (times : list float) :
  forall (c : Capture) (r : Recorder Blob),
  framesRef (fst (fst (captureLoop toBlob times c r))) =
  framesRef r ++
  flat_map (fun e => match toBlob (snd e) with Some bl => [bl] | None => [] end)
           (snapshotLog toBlob times c r).
Proof.
  induction times as [| time rest IH]; intros c r; cbn [captureLoop snapshotLog].
  - cbn. now rewrite app_nil_r.
  - destruct (captureFrame_cases c time r)
      as [[_ ->] | [(_ & _ & ->) | (_ & _ & ->)]].
    + cbn. now rewrite app_nil_r.
    + rewrite IH. cbn [frameCount].
      rewrite (proj2 (Nat.ltb_lt _ _) (Nat.lt_succ_diag_r (frameCount c))).
      cbn [app flat_map snd].
      destruct (toBlob time) as [bl |]; cbn [pushBlob framesRef app].
      * now rewrite <- app_assoc.
      * reflexivity.
    + rewrite IH, Nat.ltb_irrefl. reflexivity.
Qed.

(** C1, as the code has it.  The numbers are the doubles of the code:
    [interval] is [1000 / 60] rounded, the boundary of frame [k] is
    [k * interval] rounded (15 * interval is 250.00000000000003), and the
    elapsed time is [time - startTime] rounded.  For callbacks whose
    elapsed times never decrease and reach 10000 ms, the loop ends in
    [encodeVideo] with at most 600 snapshots and at most one per callback:
    never more snapshots than callbacks.  When each of the 600 frame
    windows, from the boundary of frame [k] up to the boundary of frame
    [k + 1], holds the elapsed time of a callback, the snapshots are
    exactly 600: snapshot [k] is taken at a callback inside window [k],
    for k = 0, ..., 599 in order, none skipped and none taken twice; and
    when no blob is null, 600 frames have been added to [framesRef]. *)
Theorem capture_one_snapshot_per_window
  (times : list float) (bitrate : Z) (start : float) (r : Recorder Blob) :
  elapsedOrdered start times ->
  (exists time, In time times /\ (totalDuration <=? time - start) = true) ->
  let c := mkCapture bitrate start 0 in
  snd (captureLoop toBlob times c r) = true /\
  (snapshots toBlob times c r <= 600)%nat /\
  (snapshots toBlob times c r <= length times)%nat /\
  (visited start 0 times ->
   snapshots toBlob times c r = 600%nat /\
   map fst (snapshotLog toBlob times c r) = seq 0 600 /\
   Forall (fun e => inWindow start (fst e) (snd e))
          (snapshotLog toBlob times c r) /\
   ((forall time, toBlob time <> None) ->
    length (framesRef (fst (fst (captureLoop toBlob times c r)))) =
    (length (framesRef r) + 600)%nat)).
Proof.
  intros Hinc Hreach c.
  split; [apply captureLoop_stops; exact Hreach |].
  destruct (snapshots_bounded times c r) as [H600 Hlen]; [cbn; lia |].
  split; [exact H600 |]. split; [exact Hlen |].
  intros Hvis.
  destruct (capture_follows_windows times c r Hinc) as (Hn & Hidx & Hwin);
    [cbn; lia | exact Hvis |].
  split; [exact Hn |]. split; [exact Hidx |]. split; [exact Hwin |].
  intros Hblob. rewrite frames_follow_snapshots, length_app. f_equal.
  assert (Hlog : length (snapshotLog toBlob times c r) = 600%nat).
  { rewrite <- (length_map fst), Hidx. apply length_seq. }
  rewrite <- Hlog. clear - Hblob.
  induction (snapshotLog toBlob times c r) as [| e l IHl]; [reflexivity |].
  cbn [flat_map]. rewrite length_app, IHl.
  destruct (toBlob (snd e)) eqn:E; [reflexivity | now apply Hblob in E].
Qed.

End Loop.

(** *** Concrete callback sequences *)

(** C1, as stated, fails.  Callbacks at 0, 5000 and 10000 ms after the
    start grow strictly and reach 10000 ms; the loop takes a snapshot at 0
    and at 5000 and stops at 10000: two snapshots, not 600. *)
Lemma sparse_callbacks_miss_frames :
  let times := [0; 5000; 10000] in
  increasing times /\
  (exists time, In time times /\ (totalDuration <=? time - 0) = true) /\
  snapshots (fun _ => Some tt) times (mkCapture 25000000 0 0)
            (mkRecorder true [] true) = 2%nat /\
  snapshots (fun _ => Some tt) times (mkCapture 25000000 0 0)
            (mkRecorder true [] true) <> 600%nat.
Proof.
  cbv zeta. split; [| split; [| split]].
  - cbn [increasing]. repeat split; intros y Hy;
      repeat (destruct Hy as [<- | Hy]; [vm_compute; reflexivity |]); destruct Hy.
  - exists 10000. split; [cbn; tauto | vm_compute; reflexivity].
  - vm_compute. reflexivity.
  - vm_compute. discriminate.
Qed.

(** Nor is a callback in every sixtieth of a second enough.  Callbacks on
    whole milliseconds, the first at or after [k * 50 / 3] for each of
    k = 0, ..., 599, and one at 10000 ms, leave 599 snapshots: the
    callback at 250 ms comes before the boundary of frame 15, which the
    code computes as 250.00000000000003. *)
Lemma whole_milliseconds_take_599 :
  let times := wholeMilliseconds 600 ++ [10000] in
  (250 <? boundary 15) = true /\
  snapshots (fun _ => Some tt) times (mkCapture 25000000 0 0)
            (mkRecorder true [] true) = 599%nat.
Proof. split; vm_compute; reflexivity. Qed.

(** Callbacks exactly on the boundaries, computed. *)
Lemma boundary_callbacks_table :
  forallb (fun k =>
             let e := fun i => 0 + toNumber i * interval - 0 in
             (e k <=? e (S k)) && (boundary k <=? e k) && (e k <? boundary (S k)))
          (seq 0 600) = true.
Proof. vm_compute. reflexivity. Qed.

Lemma boundary_callbacks (k : nat) :
  (k < 600)%nat ->
  let e := fun i => 0 + toNumber i * interval - 0 in
  (e k <=? e (S k)) = true /\ (boundary k <=? e k) = true /\
  (e k <? boundary (S k)) = true.
Proof.
  intros Hk e. pose proof boundary_callbacks_table as H.
  rewrite forallb_forall in H. specialize (H k). cbv zeta in H. fold e in H.
  destruct (andb_prop _ _ (H (proj2 (in_seq _ _ _) (conj (Nat.le_0_l k) Hk))))
    as [H12 H3].
  destruct (andb_prop _ _ H12) as [H1 H2]. now repeat split.
Qed.

Lemma boundary_callbacks_ordered (n : nat) : forall from : nat,
  (from + n <= 601)%nat ->
  elapsedOrdered 0 (map (fun i => 0 + toNumber i * interval) (seq from n)).
Proof.
  induction n as [| n IH]; intros from Hle; cbn [seq map elapsedOrdered].
  - exact I.
  - split; [| apply IH; lia].
    intros y Hy. apply in_map_iff in Hy. destruct Hy as (j & <- & Hj).
    apply in_seq in Hj. destruct Hj as [Hj1 Hj2].
    assert (Hchain : forall m : nat, (S from + m <= 600)%nat ->
      (0 + toNumber from * interval - 0 <=? 0 + toNumber (S from + m) * interval - 0)
      = true).
    { induction m as [| m IHm]; intros Hm.
      - rewrite Nat.add_0_r. apply (boundary_callbacks from). lia.
      - apply (leb_trans _ (0 + toNumber (S from + m) * interval - 0));
          [apply IHm; lia |].
        replace (S from + S m)%nat with (S (S from + m)) by lia.
        apply (boundary_callbacks (S from + m)). lia. }
    replace j with (S from + (j - S from))%nat by lia.
    apply Hchain. lia.
Qed.

(** A display that fires exactly on the 601 frame boundaries. *)
Lemma capture_one_snapshot_per_window_witness :
  snapshots (fun _ => Some tt) (everyStep interval 0 601)
            (mkCapture 25000000 0 0) (mkRecorder true [] true) = 600%nat /\
  length (framesRef (fst (fst (captureLoop (fun _ => Some tt)
            (everyStep interval 0 601) (mkCapture 25000000 0 0)
            (mkRecorder true [] true))))) = 600%nat.
Proof.
  assert (Hinc : elapsedOrdered 0 (everyStep interval 0 601))
    by (apply boundary_callbacks_ordered; lia).
  assert (Hreach : exists time, In time (everyStep interval 0 601) /\
                                (totalDuration <=? time - 0) = true).
  { exists (0 + toNumber 600 * interval). split.
    - apply in_map_iff. exists 600%nat. split; [reflexivity | apply in_seq; lia].
    - vm_compute. reflexivity. }
  assert (Hvis : visited 0 0 (everyStep interval 0 601)).
  { intros k Hk. exists (0 + toNumber k * interval). split.
    - apply in_map_iff. exists k. split; [reflexivity | apply in_seq; lia].
    - destruct (boundary_callbacks k) as (_ & H1 & H2); [lia |]. now split. }
  destruct (capture_one_snapshot_per_window (fun _ : float => Some tt)
              (everyStep interval 0 601) 25000000 0 (mkRecorder true [] true)
              Hinc Hreach) as (_ & _ & _ & Hall).
  destruct (Hall Hvis) as (Hn & _ & _ & Hframes).
  split; [exact Hn |]. apply Hframes. discriminate.
Defined.

End CaptureProps.
(** ** Starting an export *)

Module ExportProps.

Import PrimFloat Recorder Page.

Section Start.

Context {Blob : Type} (toBlob : float -> option Blob).

(** A start that goes through marks the recorder as recording, with no
    frames, and requests the first animation frame. *)
Lemma startRecording_starts (bitrate : Z) (now : float) (r : Recorder Blob) :
  loaded r = true ->
  startRecording true bitrate now r =
  (mkRecorder true [] true, [requestAnimationFrame (mkCapture bitrate now 0)]).
Proof. intros H. unfold startRecording. rewrite H. reflexivity. Qed.

Lemma pushBlob_flags (blob : option Blob) (r : Recorder Blob) :
  isRecording (pushBlob blob r) = isRecording r /\
  loaded (pushBlob blob r) = loaded r.
Proof. destruct blob; split; reflexivity. Qed.

(** The capture loop never writes [isRecording]: the recorder stays marked
    as recording for as long as the capture runs. *)
Lemma captureLoop_keeps_recording (times : list float) :
  forall (c : Capture) (r : Recorder Blob),
  isRecording (fst (fst (captureLoop toBlob times c r))) = isRecording r.
Proof.
  induction times as [| time rest IH]; intros c r; cbn [captureLoop].
  - reflexivity.
  - unfold captureFrame.
    destruct (leb totalDuration (sub time (startTime c))); [reflexivity |].
    destruct (leb _ _); rewrite IH; [apply pushBlob_flags | reflexivity].
Qed.

(** C8.  When the encoder is not loaded, [startRecording] returns with the
    recorder as it was ([isRecording] and the frames untouched) and with
    one effect, the blocking alert raised inside the call: no animation
    frame is requested, so no capture begins and no snapshot is taken, and
    [encodeVideo] is not reached, so no file is written. *)
Theorem startRecording_refuses_when_not_loaded
  (canvas : bool) (bitrate : Z) (now : float) (r : Recorder Blob) :
  loaded r = false ->
  startRecording canvas bitrate now r =
  (r, [alert "Video encoder still loading, please wait..."]).
Proof.
  intros H. unfold startRecording. rewrite H.
  cbn [negb]. rewrite orb_true_r. reflexivity.
Qed.

(** The guard of [handleExport].  While the recorder is marked as
    recording, [handleExport] returns the page as it was: [resetKey] is
    not bumped, no call of [startRecording] is scheduled, and the frames
    collected so far and the capture with its frame count are the same. *)
Lemma handleExport_rejected_while_recording (h : Home Blob) :
  isRecording (recorder h) = true ->
  handleExport h = h /\
  framesRef (recorder (handleExport h)) = framesRef (recorder h) /\
  capture (handleExport h) = capture h /\
  timeouts (handleExport h) = timeouts h.
Proof.
  intros H. unfold handleExport. rewrite H. repeat split.
Qed.

End Start.

(** An encoder that is still loading. *)
Lemma startRecording_refuses_when_not_loaded_witness :
  startRecording true 25000000 0%float (mkRecorder (Blob := unit) false [] false) =
  (mkRecorder false [] false, [alert "Video encoder still loading, please wait..."]).
Proof.
  exact (startRecording_refuses_when_not_loaded true 25000000 0%float
           (mkRecorder false [] false) eq_refl).
Defined.

(** The guard at work in the middle of a capture. *)
Lemma handleExport_rejected_mid_capture :
  framesRef (recorder midCapture) = [tt; tt] /\
  option_map frameCount (capture midCapture) = Some 2%nat /\
  handleExport midCapture = midCapture.
Proof.
  split; [vm_compute; reflexivity |]. split; [vm_compute; reflexivity |].
  apply (handleExport_rejected_while_recording midCapture).
  vm_compute. reflexivity.
Qed.

(** C7, on the code.  The only guard is the test of [isRecording] in
    [handleExport], and [isRecording] is set by [startRecording], 150 ms
    after the click.  Two clicks on an idle page with the encoder loaded
    are both accepted, and each schedules a start.  The first start, at
    150 ms, begins a session, which takes three snapshots at the
    callbacks at 150, 170 and 190 ms: the recorder is marked as recording
    and holds three frames, the frame count is 3.  The second start, at
    200 ms, is not rejected: it runs [startRecording] through, empties
    the frames of the active session and requests a capture of its own
    with a frame count of 0; the next callback of the first session, at
    210 ms, then puts its snapshot number 3 into the emptied frames. *)
Theorem second_start_mutates_the_active_session :
  let toBlob := fun time : float => Some time in
  let idle := mkHome hq 0 (mkRecorder false [] true) None [] in
  let clicked := handleExport (handleExport idle) in
  let first := mkCapture 25000000 150%float 0 in
  let started := fst (startRecording true 25000000 150%float (recorder clicked)) in
  let active := captureLoop toBlob [150; 170; 190]%float first started in
  let second := startRecording true 25000000 200%float (fst (fst active)) in
  let later := captureLoop toBlob [210]%float (snd (fst active)) (fst second) in
  resetKey clicked = 2%nat /\
  timeouts clicked = [(150%Q, 25000000%Z); (150%Q, 25000000%Z)] /\
  startRecording true 25000000 150%float (recorder clicked) =
    (mkRecorder true [] true, [requestAnimationFrame first]) /\
  active = (mkRecorder true [150; 170; 190]%float true,
            mkCapture 25000000 150%float 3, false) /\
  second = (mkRecorder true [] true,
            [requestAnimationFrame (mkCapture 25000000 200%float 0)]) /\
  later = (mkRecorder true [210]%float true,
           mkCapture 25000000 150%float 4, false).
Proof.
  cbv zeta. repeat split; vm_compute; reflexivity.
Qed.

End ExportProps.

(** ** The engine, field by field *)

Module FieldProps.

Import Lissajous EngineProps.

Local Open Scope R_scope.

Lemma Params_ext (p q : Params) :
  (forall key, get p key = get q key) -> p = q.
Proof.
  intros H. destruct p as [pa pb pd], q as [qa qb qd].
  pose proof (H key_a) as Ha. pose proof (H key_b) as Hb.
  pose proof (H key_delta) as Hd. cbn in *. congruence.
Qed.

Lemma sketch_ext (s s' : LissajousSketch) :
  sameButMotion s s' ->
  currentParams s' = currentParams s ->
  currentVelocity s' = currentVelocity s ->
  s' = s.
Proof.
  unfold sameButMotion. destruct s, s'; cbn.
  intros (? & ? & ? & ? & ? & ? & ? & ? & ? & ? & ? & ? & ? & ? & ?) ? ?.
  subst. reflexivity.
Qed.

Lemma get_set_same (p : Params) (key : Key) (v : R) : get (set p key v) key = v.
Proof. now destruct key. Qed.

Lemma get_set_other (p : Params) (key key' : Key) (v : R) :
  key' <> key -> get (set p key v) key' = get p key'.
Proof. destruct key, key'; intros H; try reflexivity; congruence. Qed.

Lemma snapToTarget_other (key key' : Key) (s : LissajousSketch) :
  key' <> key ->
  get (currentParams (snapToTarget key s)) key' = get (currentParams s) key' /\
  get (currentVelocity (snapToTarget key s)) key' = get (currentVelocity s) key'.
Proof.
  intros H. unfold snapToTarget; cbn. now rewrite !get_set_other.
Qed.

Lemma integrate_other (key key' : Key) (f c : R) (s : LissajousSketch) :
  key' <> key ->
  get (currentParams (integrate key f c s)) key' = get (currentParams s) key' /\
  get (currentVelocity (integrate key f c s)) key' = get (currentVelocity s) key'.
Proof.
  intros H. unfold integrate; cbn. now rewrite !get_set_other.
Qed.

(** The engine writes the field it is called for and no other. *)
Lemma applySpringForce_other (key key' : Key) (s : LissajousSketch) :
  key' <> key ->
  get (currentParams (applySpringForce key s)) key' = get (currentParams s) key' /\
  get (currentVelocity (applySpringForce key s)) key' = get (currentVelocity s) key'.
Proof.
  intros H.
  split;
    unfold applySpringForce;
    destruct (_mode s); cbn [Mode_eqb andb];
    repeat match goal with
      | |- context [if ?c then _ else _] => destruct c
      end;
    rewrite ?(proj1 (snapToTarget_other key key' _ H)),
            ?(proj2 (snapToTarget_other key key' _ H)),
            ?(proj1 (integrate_other key key' _ _ _ H)),
            ?(proj2 (integrate_other key key' _ _ _ H));
    reflexivity.
Qed.

Lemma sameButMotion_sym (s s' : LissajousSketch) :
  sameButMotion s s' -> sameButMotion s' s.
Proof.
  unfold sameButMotion.
  intros (? & ? & ? & ? & ? & ? & ? & ? & ? & ? & ? & ? & ? & ? & ?).
  repeat split; symmetry; assumption.
Qed.

(** What the engine does to a field is decided by the mode, the three
    physics fields and the target, position and velocity of that field. *)
Lemma applySpringForce_local (key : Key) (s s' : LissajousSketch) :
  _mode s' = _mode s ->
  stiffness s' = stiffness s ->
  damping s' = damping s ->
  mass s' = mass s ->
  get (targetParams s') key = get (targetParams s) key ->
  get (currentParams s') key = get (currentParams s) key ->
  get (currentVelocity s') key = get (currentVelocity s) key ->
  get (currentParams (applySpringForce key s')) key =
    get (currentParams (applySpringForce key s)) key /\
  get (currentVelocity (applySpringForce key s')) key =
    get (currentVelocity (applySpringForce key s)) key.
Proof.
  intros Hm Hk Hc Hma Ht Hcu Hv.
  destruct (Mode_eqb (_mode s) harmonic) eqn:E.
  - apply ModeProps.Mode_eqb_eq in E.
    assert (E' : _mode s' = harmonic) by congruence.
    pose proof (harmonic_snap_rule key s E) as [H1 H2].
    pose proof (harmonic_snap_rule key s' E') as [H1' H2'].
    cbv zeta in *. rewrite Hma, Ht, Hcu, Hv in H1', H2'.
    match type of H1 with ?P -> _ => destruct (Classical_Prop.classic P) as [Hyes | Hno] end.
    + destruct (H1 Hyes) as [-> ->]. destruct (H1' Hyes) as [-> ->]. now split.
    + destruct H2 as [-> ->]; [tauto |]. destruct H2' as [-> ->]; [tauto |].
      now split.
  - assert (En : _mode s <> harmonic).
    { intros H. apply ModeProps.Mode_eqb_eq in H. congruence. }
    assert (En' : _mode s' <> harmonic) by congruence.
    pose proof (linear_snap_rule key s En) as [H1 H2].
    pose proof (linear_snap_rule key s' En') as [H1' H2'].
    cbv zeta in *. rewrite Hk, Hc, Hma, Ht, Hcu, Hv in H1', H2'.
    match type of H1 with ?P -> _ => destruct (Classical_Prop.classic P) as [Hyes | Hno] end.
    + destruct (H1 Hyes) as [-> ->]. destruct (H1' Hyes) as [-> ->]. now split.
    + destruct (H2 Hno) as [-> ->]. destruct (H2' Hno) as [-> ->]. now split.
Qed.

Lemma Key_eq_dec (k1 k2 : Key) : {k1 = k2} + {k1 <> k2}.
Proof. decide equality. Qed.

Lemma applySpringForce_swap_field (k1 k2 key : Key) (s : LissajousSketch) :
  k1 <> k2 ->
  get (currentParams (applySpringForce k1 (applySpringForce k2 s))) key =
  get (currentParams (applySpringForce k2 (applySpringForce k1 s))) key /\
  get (currentVelocity (applySpringForce k1 (applySpringForce k2 s))) key =
  get (currentVelocity (applySpringForce k2 (applySpringForce k1 s))) key.
Proof.
  intros Hne. assert (Hne' : k2 <> k1) by congruence.
  assert (Hloc : forall ka kb, ka <> kb ->
    get (currentParams (applySpringForce ka (applySpringForce kb s))) ka =
      get (currentParams (applySpringForce ka s)) ka /\
    get (currentVelocity (applySpringForce ka (applySpringForce kb s))) ka =
      get (currentVelocity (applySpringForce ka s)) ka).
  { intros ka kb Hab.
    pose proof (applySpringForce_frame kb s) as F. unfold sameButMotion in F.
    destruct (applySpringForce_other kb ka s Hab) as [Hc Hv].
    apply applySpringForce_local; try tauto.
    replace (targetParams (applySpringForce kb s)) with (targetParams s)
      by (symmetry; tauto).
    reflexivity. }
  destruct (Key_eq_dec key k1) as [-> | N1].
  - destruct (Hloc k1 k2 Hne) as [-> ->].
    destruct (applySpringForce_other k2 k1 (applySpringForce k1 s) Hne) as [-> ->].
    now split.
  - destruct (Key_eq_dec key k2) as [-> | N2].
    + destruct (Hloc k2 k1 Hne') as [-> ->].
      destruct (applySpringForce_other k1 k2 (applySpringForce k2 s) Hne') as [-> ->].
      now split.
    + destruct (applySpringForce_other k1 key (applySpringForce k2 s) N1) as [-> ->].
      destruct (applySpringForce_other k2 key (applySpringForce k1 s) N2) as [-> ->].
      destruct (applySpringForce_other k2 key s N2) as [-> ->].
      destruct (applySpringForce_other k1 key s N1) as [-> ->].
      now split.
Qed.

(** X1.  The engine treats the three fields independently: a call for one
    field leaves the other two fields of the position and of the velocity
    as they were, and calls for two different fields give the same sketch
    in either order. *)
Theorem applySpringForce_fields_independent (k1 k2 : Key) (s : LissajousSketch) :
  k1 <> k2 ->
  get (currentParams (applySpringForce k1 s)) k2 = get (currentParams s) k2 /\
  get (currentVelocity (applySpringForce k1 s)) k2 = get (currentVelocity s) k2 /\
  applySpringForce k1 (applySpringForce k2 s) =
  applySpringForce k2 (applySpringForce k1 s).
Proof.
  intros Hne.
  assert (Hne' : k2 <> k1) by congruence.
  destruct (applySpringForce_other k1 k2 s Hne') as [Ho1 Ho2].
  split; [exact Ho1 |]. split; [exact Ho2 |].
  apply sketch_ext.
  - eapply sameButMotion_trans;
      [apply sameButMotion_sym; eapply sameButMotion_trans;
         [apply (applySpringForce_frame k1 s)
         | apply (applySpringForce_frame k2 (applySpringForce k1 s))] |].
    eapply sameButMotion_trans;
      [apply (applySpringForce_frame k2 s)
      | apply (applySpringForce_frame k1 (applySpringForce k2 s))].
  - apply Params_ext. intros key.
    apply (applySpringForce_swap_field k1 k2 key s Hne).
  - apply Params_ext. intros key.
    apply (applySpringForce_swap_field k1 k2 key s Hne).
Qed.

(** A field that sits on its target with zero velocity is left exactly as
    it is, in every mode and for every stiffness, damping and mass. *)
Lemma applySpringForce_rest (key : Key) (s : LissajousSketch) :
  fieldAtRest key s -> applySpringForce key s = s.
Proof.
  intros [Hc Hv].
  assert (Hd : get (targetParams s) key - get (currentParams s) key = 0) by lra.
  assert (Hfield :
    get (currentParams (applySpringForce key s)) key = get (currentParams s) key /\
    get (currentVelocity (applySpringForce key s)) key = get (currentVelocity s) key).
  { destruct (Mode_eqb (_mode s) harmonic) eqn:E.
    - apply ModeProps.Mode_eqb_eq in E.
      destruct (harmonic_snap_rule key s E) as [H1 _]. cbv zeta in H1.
      rewrite Hd, Hv, Rabs_R0 in H1.
      destruct H1 as [-> ->]; [left; split; lra |]. now rewrite Hc, Hv.
    - assert (En : _mode s <> harmonic).
      { intros H. apply ModeProps.Mode_eqb_eq in H. congruence. }
      destruct (linear_snap_rule key s En) as [H1 _]. cbv zeta in H1.
      rewrite Hd, Hv in H1.
      replace (0 + (0 * stiffness s - 0 * damping s) / mass s) with 0 in H1
        by (unfold Rdiv; ring).
      rewrite Rabs_R0 in H1.
      destruct H1 as [-> ->]; [split; lra |]. now rewrite Hc, Hv. }
  apply (sketch_ext s (applySpringForce key s)).
  - apply applySpringForce_frame.
  - apply Params_ext. intros key'.
    destruct (Key_eq_dec key' key) as [-> | N]; [apply Hfield |].
    apply (applySpringForce_other key key' s N).
  - apply Params_ext. intros key'.
    destruct (Key_eq_dec key' key) as [-> | N]; [apply Hfield |].
    apply (applySpringForce_other key key' s N).
Qed.

(** The fields [a] and [b] of a sketch in motion. *)
Lemma applySpringForce_fields_independent_witness :
  applySpringForce key_a (applySpringForce key_b lastTransitionFrame) =
  applySpringForce key_b (applySpringForce key_a lastTransitionFrame).
Proof.
  apply (applySpringForce_fields_independent key_a key_b lastTransitionFrame).
  discriminate.
Defined.

End FieldProps.

(** ** Frames of the machine *)

Module CycleProps.

Import Lissajous EngineProps FieldProps.

Local Open Scope R_scope.

(** Reduce the projections of a sketch rebuilt by field assignments,
    leaving the arithmetic and the engine folded. *)
Ltac project_fields :=
  cbn [set_t set_currentPhaseIndex set_direction set__mode set_state set_timer
       set_frame set_currentParams set_currentVelocity set_targetParams
       t timeStep phases currentPhaseIndex direction stiffness damping mass
       _mode holdDuration transitionDuration state timer frame currentParams
       currentVelocity targetParams] in *.

(** The engine calls of a frame leave everything but the motion as the
    clocks have set it. *)
Lemma advancePhysics_same (s : LissajousSketch) :
  sameButMotion (set_timer (timer s + 1) (set_t (t s + timeStep s) s))
                (advancePhysics s).
Proof.
  unfold advancePhysics.
  set (s0 := set_timer (timer (set_t (t s + timeStep s) s) + 1)
               (set_t (t s + timeStep s) s)).
  change (sameButMotion s0
            (applySpringForce key_delta
               (applySpringForce key_b (applySpringForce key_a s0)))).
  eapply sameButMotion_trans; [| apply applySpringForce_frame].
  eapply sameButMotion_trans; [| apply applySpringForce_frame].
  apply applySpringForce_frame.
Qed.

Lemma advancePhysics_facts (s : LissajousSketch) :
  timer (advancePhysics s) = timer s + 1 /\
  t (advancePhysics s) = t s + timeStep s /\
  state (advancePhysics s) = state s /\
  frame (advancePhysics s) = frame s /\
  sameConfig s (advancePhysics s) /\
  sameCursor s (advancePhysics s).
Proof.
  pose proof (advancePhysics_same s) as H.
  unfold sameButMotion in H. cbn in H.
  unfold sameConfig, sameCursor. intuition congruence.
Qed.

(** At rest the engine calls change nothing: the frame moves the clocks
    only. *)
Lemma advancePhysics_at_rest (s : LissajousSketch) :
  atRest s ->
  advancePhysics s = set_timer (timer s + 1) (set_t (t s + timeStep s) s).
Proof.
  intros [Hc Hv]. unfold advancePhysics.
  set (s0 := set_timer (timer (set_t (t s + timeStep s) s) + 1)
               (set_t (t s + timeStep s) s)).
  assert (Hrest : forall key, fieldAtRest key s0).
  { intros key. unfold fieldAtRest, s0; cbn. rewrite Hc, Hv.
    split; [reflexivity | now destruct key]. }
  rewrite (applySpringForce_rest key_a s0 (Hrest key_a)).
  rewrite (applySpringForce_rest key_b s0 (Hrest key_b)).
  rewrite (applySpringForce_rest key_delta s0 (Hrest key_delta)).
  reflexivity.
Qed.

(** The four ways a frame can go. *)
Lemma updateLogic_cases (s : LissajousSketch) :
  let p := advancePhysics s in
  (state s = HOLD /\ timer s + 1 < holdDuration s /\ updateLogic s = Some p)
  \/ (state s = HOLD /\ holdDuration s <= timer s + 1 /\
      updateLogic s = switchTarget (set_timer 0 (set_state TRANSITION p)))
  \/ (state s = TRANSITION /\ shouldFinish p = false /\ updateLogic s = Some p)
  \/ (state s = TRANSITION /\ shouldFinish p = true /\
      updateLogic s =
        Some (set_currentVelocity zeroParams
                (set_currentParams (targetParams p)
                   (set_timer 0 (set_state HOLD p))))).
Proof.
  intros p.
  destruct (advancePhysics_facts s) as (Ht & _ & Hst & _ & Hcfg & _).
  destruct Hcfg as (_ & _ & _ & _ & _ & _ & Hh & _).
  fold p in Ht, Hst, Hh.
  unfold updateLogic. fold p. rewrite Hst.
  destruct (state s).
  - unfold Rgeb. rewrite Ht, Hh.
    destruct (Rleb (holdDuration s) (timer s + 1)) eqn:E.
    + right; left. apply Rleb_true in E. auto.
    + left. apply Rleb_false in E. auto.
  - destruct (shouldFinish p) eqn:E.
    + right; right; right. auto.
    + right; right; left. auto.
Qed.

(** The facts of a frame of [s], with the sketch after the physics as an
    opaque [p]. *)
Ltac frame_facts s p Hfacts Hcases :=
  pose proof (advancePhysics_facts s) as Hfacts;
  pose proof (updateLogic_cases s) as Hcases; cbv zeta in Hcases;
  set (p := advancePhysics s) in *; clearbody p.

Lemma sameConfig_refl (s : LissajousSketch) : sameConfig s s.
Proof. unfold sameConfig; intuition reflexivity. Qed.

Lemma sameConfig_trans (s1 s2 s3 : LissajousSketch) :
  sameConfig s1 s2 -> sameConfig s2 s3 -> sameConfig s1 s3.
Proof. unfold sameConfig; intuition congruence. Qed.

Lemma sameCursor_refl (s : LissajousSketch) : sameCursor s s.
Proof. unfold sameCursor; intuition reflexivity. Qed.

Lemma sameCursor_trans (s1 s2 s3 : LissajousSketch) :
  sameCursor s1 s2 -> sameCursor s2 s3 -> sameCursor s1 s3.
Proof. unfold sameCursor; intuition congruence. Qed.

(** [switchTarget] writes the direction, the index and the target only. *)
Lemma switchTarget_keeps (q s' : LissajousSketch) :
  switchTarget q = Some s' ->
  sameConfig q s' /\ t s' = t q /\ frame s' = frame q /\
  state s' = state q /\ timer s' = timer q /\
  currentParams s' = currentParams q /\
  currentVelocity s' = currentVelocity q.
Proof.
  unfold switchTarget.
  destruct (if (_ <=? _)%Z then _ else _) as [dir idx].
  destruct (array_get _ idx) as [tg |]; [| discriminate].
  intros H. injection H as <-. unfold sameConfig. cbn.
  repeat split; reflexivity.
Qed.

(** A frame never touches the configuration, and moves [t] by one time
    step. *)
Lemma updateLogic_config (s s' : LissajousSketch) :
  updateLogic s = Some s' ->
  sameConfig s s' /\ t s' = t s + timeStep s /\ frame s' = frame s.
Proof.
  intros H. frame_facts s p Hfacts Hcases.
  destruct Hfacts as (_ & Ht & _ & Hf & Hcfg & _).
  destruct Hcases
    as [(_ & _ & E) | [(_ & _ & E) | [(_ & _ & E) | (_ & _ & E)]]];
    rewrite E in H; clear E.
  - injection H as H. rewrite <- H.
    split; [exact Hcfg | split; [exact Ht | exact Hf]].
  - apply switchTarget_keeps in H.
    destruct H as (Hc & Ht' & Hf' & _).
    split; [| split].
    + eapply sameConfig_trans; [exact Hcfg |].
      eapply sameConfig_trans; [| exact Hc].
      unfold sameConfig. repeat split; reflexivity.
    + rewrite Ht', <- Ht. reflexivity.
    + rewrite Hf', <- Hf. reflexivity.
  - injection H as H. rewrite <- H.
    split; [exact Hcfg | split; [exact Ht | exact Hf]].
  - injection H as H. rewrite <- H.
    split; [| split].
    + eapply sameConfig_trans; [exact Hcfg |].
      unfold sameConfig. repeat split; reflexivity.
    + rewrite <- Ht. reflexivity.
    + rewrite <- Hf. reflexivity.
Qed.

Lemma runFrames_add (k m : nat) : forall s : LissajousSketch,
  runFrames (k + m) s =
  match runFrames k s with
  | Some s' => runFrames m s'
  | None => None
  end.
Proof.
  induction k as [| k IH]; intros s; cbn [runFrames Nat.add].
  - reflexivity.
  - destruct (updateLogic s) as [s' |]; [apply IH | reflexivity].
Qed.

Lemma cursor_ok_same (s s' : LissajousSketch) :
  phases s' = phases s ->
  currentPhaseIndex s' = currentPhaseIndex s ->
  direction s' = direction s ->
  cursor_ok s -> cursor_ok s'.
Proof. unfold cursor_ok. intros -> -> ->. trivial. Qed.

(** A frame of a sketch with a valid cursor yields a sketch with a valid
    cursor. *)
Lemma updateLogic_cursor (s : LissajousSketch) :
  cursor_ok s -> exists s', updateLogic s = Some s' /\ cursor_ok s'.
Proof.
  intros Hok. frame_facts s p Hfacts Hcases.
  destruct Hfacts as (_ & _ & _ & _ & Hcfg & Hcur).
  assert (Hp : cursor_ok p).
  { destruct Hcfg as (_ & Hph & _). destruct Hcur as (Hi & Hd & _).
    now apply (cursor_ok_same s). }
  destruct Hcases
    as [(_ & _ & E) | [(_ & _ & E) | [(_ & _ & E) | (_ & _ & E)]]];
    rewrite E; clear E.
  - exists p. split; [reflexivity | exact Hp].
  - destruct (SequencerProps.switchTarget_step
                (set_timer 0 (set_state TRANSITION p)))
      as (s' & Hs' & Hok' & _).
    + apply (cursor_ok_same p); [reflexivity | reflexivity | reflexivity | exact Hp].
    + exists s'. split; [exact Hs' | exact Hok'].
  - exists p. split; [reflexivity | exact Hp].
  - eexists. split; [reflexivity |].
    apply (cursor_ok_same p); [reflexivity | reflexivity | reflexivity | exact Hp].
Qed.

(** X2.  From a valid cursor the machine runs for any number of frames
    without ever losing its target: every frame yields a sketch, the
    cursor stays valid, the configuration (mode, keyframes, time step,
    physics fields, durations) is never written, and [t] has advanced by
    one time step per frame, whatever the state and the motion. *)
Theorem runFrames_never_fails (n : nat) (s : LissajousSketch) :
  cursor_ok s ->
  exists s', runFrames n s = Some s' /\
    cursor_ok s' /\
    sameConfig s s' /\
    t s' = t s + INR n * timeStep s.
Proof.
  revert s. induction n as [| n IH]; intros s Hok.
  - exists s. cbn [runFrames INR]. split; [reflexivity |]. split; [exact Hok |].
    split; [apply sameConfig_refl | lra].
  - destruct (updateLogic_cursor s Hok) as (s1 & H1 & Hok1).
    destruct (updateLogic_config s s1 H1) as (Hcfg1 & Ht1 & _).
    destruct (IH s1 Hok1) as (s' & Hrun & Hok' & Hcfg & Ht).
    exists s'. cbn [runFrames]. rewrite H1.
    split; [exact Hrun |]. split; [exact Hok' |].
    split; [eapply sameConfig_trans; eassumption |].
    rewrite Ht, Ht1, S_INR.
    destruct Hcfg1 as (_ & _ & -> & _). ring.
Qed.

(** While the timer stays short of [holdDuration], a sketch in HOLD stays
    in HOLD with the same target; at rest it does not move. *)
Lemma hold_run (k : nat) : forall s : LissajousSketch,
  state s = HOLD ->
  timer s + INR k < holdDuration s ->
  exists sk, runFrames k s = Some sk /\
    state sk = HOLD /\
    timer sk = timer s + INR k /\
    sameConfig s sk /\
    sameCursor s sk /\
    (atRest s -> atRest sk /\ currentParams sk = currentParams s).
Proof.
  induction k as [| k IH]; intros s Hst Hlt.
  - exists s. cbn [runFrames INR].
    split; [reflexivity |]. split; [exact Hst |]. split; [lra |].
    split; [apply sameConfig_refl |]. split; [apply sameCursor_refl |].
    intros Hr. split; [exact Hr | reflexivity].
  - rewrite S_INR in Hlt. pose proof (pos_INR k) as Hk.
    assert (Hrestp : atRest s ->
              atRest (advancePhysics s) /\
              currentParams (advancePhysics s) = currentParams s).
    { intros Hr. rewrite (advancePhysics_at_rest s Hr). split; [exact Hr | reflexivity]. }
    frame_facts s p Hfacts Hcases.
    destruct Hfacts as (Ht & _ & Hstp & _ & Hcfg & Hcur).
    destruct Hcases
      as [(_ & _ & E) | [(_ & Hge & _) | [(Hs & _) | (Hs & _)]]];
      try congruence; try lra.
    assert (Hh : holdDuration p = holdDuration s)
      by (destruct Hcfg as (_ & _ & _ & _ & _ & _ & -> & _); reflexivity).
    destruct (IH p) as (sk & Hrun & Hstk & Htk & Hcfgk & Hcurk & Hrest).
    + congruence.
    + rewrite Ht, Hh. lra.
    + exists sk. cbn [runFrames]. rewrite E.
      split; [exact Hrun |]. split; [exact Hstk |].
      split; [rewrite Htk, Ht, S_INR; ring |].
      split; [eapply sameConfig_trans; eassumption |].
      split; [eapply sameCursor_trans; eassumption |].
      intros Hr. destruct (Hrestp Hr) as [Hrp Hcp].
      destruct (Hrest Hrp) as [Hrk Hck]. split; [exact Hrk |].
      rewrite Hck. exact Hcp.
Qed.

(** The frame on which the timer reaches [holdDuration]. *)
Lemma hold_switch (s : LissajousSketch) :
  state s = HOLD ->
  cursor_ok s ->
  holdDuration s <= timer s + 1 ->
  exists s', updateLogic s = Some s' /\
    state s' = TRANSITION /\
    timer s' = 0 /\
    cursor_ok s' /\
    sameConfig s s' /\
    currentPhaseIndex s' <> currentPhaseIndex s /\
    array_get (phases s) (currentPhaseIndex s') = Some (targetParams s') /\
    pingPongStep s s'.
Proof.
  intros Hst Hok Hge. frame_facts s p Hfacts Hcases.
  destruct Hfacts as (Ht & _ & _ & _ & Hcfg & Hcur).
  destruct Hcases
    as [(_ & Hlt & _) | [(_ & _ & E) | [(Hs & _) | (Hs & _)]]];
    try congruence; try lra.
  set (q := set_timer 0 (set_state TRANSITION p)) in *.
  assert (Hph : phases q = phases s)
    by (transitivity (phases p); [reflexivity | apply Hcfg]).
  assert (Hi : currentPhaseIndex q = currentPhaseIndex s)
    by (transitivity (currentPhaseIndex p); [reflexivity | apply Hcur]).
  assert (Hd : direction q = direction s)
    by (transitivity (direction p); [reflexivity | apply Hcur]).
  assert (Hqcfg : sameConfig s q).
  { eapply sameConfig_trans; [exact Hcfg |].
    unfold sameConfig, q. repeat split; reflexivity. }
  assert (Hqs : state q = TRANSITION /\ timer q = 0) by (split; reflexivity).
  clearbody q.
  destruct (SequencerProps.switchTarget_step q)
    as (s' & Hs' & Hok' & Hph' & Hne & Hget & Hpp).
  { now apply (cursor_ok_same s). }
  destruct (switchTarget_keeps q s' Hs') as (Hc' & _ & _ & Hst' & Htm' & _).
  exists s'. rewrite E. split; [exact Hs' |].
  split; [rewrite Hst'; apply Hqs |]. split; [rewrite Htm'; apply Hqs |].
  split; [exact Hok' |].
  split; [eapply sameConfig_trans; eassumption |].
  split; [now rewrite <- Hi |].
  split; [now rewrite <- Hph, <- Hph' |].
  unfold pingPongStep in *. rewrite <- Hph, <- Hi, <- Hd. exact Hpp.
Qed.

Lemma shouldFinish_strict (p : LissajousSketch) :
  _mode p <> harmonic ->
  shouldFinish p = Rleb (transitionDuration p) (timer p).
Proof.
  intros H. unfold shouldFinish, Rgeb. destruct (_mode p); congruence.
Qed.

(** In the strict-timing modes, while the timer stays short of
    [transitionDuration] the sketch stays in TRANSITION towards the same
    target. *)
Lemma transition_run (k : nat) : forall s : LissajousSketch,
  state s = TRANSITION ->
  _mode s <> harmonic ->
  timer s + INR k < transitionDuration s ->
  exists sk, runFrames k s = Some sk /\
    state sk = TRANSITION /\
    timer sk = timer s + INR k /\
    sameConfig s sk /\
    sameCursor s sk.
Proof.
  induction k as [| k IH]; intros s Hst Hm Hlt.
  - exists s. cbn [runFrames INR].
    split; [reflexivity |]. split; [exact Hst |]. split; [lra |].
    split; [apply sameConfig_refl | apply sameCursor_refl].
  - rewrite S_INR in Hlt. pose proof (pos_INR k) as Hk.
    frame_facts s p Hfacts Hcases.
    destruct Hfacts as (Ht & _ & Hstp & _ & Hcfg & Hcur).
    assert (Hmp : _mode p = _mode s)
      by (destruct Hcfg as (-> & _); reflexivity).
    assert (Htp : transitionDuration p = transitionDuration s)
      by (destruct Hcfg as (_ & _ & _ & _ & _ & _ & _ & ->); reflexivity).
    assert (Hsf : shouldFinish p = false).
    { rewrite shouldFinish_strict by congruence. apply Rleb_false.
      rewrite Htp, Ht. lra. }
    destruct Hcases
      as [(Hs & _) | [(Hs & _) | [(_ & _ & E) | (_ & Hfin & _)]]];
      try congruence.
    destruct (IH p) as (sk & Hrun & Hstk & Htk & Hcfgk & Hcurk).
    + congruence.
    + congruence.
    + rewrite Ht, Htp. lra.
    + exists sk. cbn [runFrames]. rewrite E.
      split; [exact Hrun |]. split; [exact Hstk |].
      split; [rewrite Htk, Ht, S_INR; ring |].
      split; [eapply sameConfig_trans; eassumption |].
      eapply sameCursor_trans; eassumption.
Qed.

(** The frame on which the timer reaches [transitionDuration]. *)
Lemma transition_finish (s : LissajousSketch) :
  state s = TRANSITION ->
  _mode s <> harmonic ->
  transitionDuration s <= timer s + 1 ->
  exists s', updateLogic s = Some s' /\
    state s' = HOLD /\
    timer s' = 0 /\
    atRest s' /\
    sameConfig s s' /\
    sameCursor s s'.
Proof.
  intros Hst Hm Hge. frame_facts s p Hfacts Hcases.
  destruct Hfacts as (Ht & _ & Hstp & _ & Hcfg & Hcur).
  assert (Hmp : _mode p = _mode s)
    by (destruct Hcfg as (-> & _); reflexivity).
  assert (Htp : transitionDuration p = transitionDuration s)
    by (destruct Hcfg as (_ & _ & _ & _ & _ & _ & _ & ->); reflexivity).
  assert (Hsf : shouldFinish p = true).
  { rewrite shouldFinish_strict by congruence. apply Rleb_true.
    rewrite Htp, Ht. lra. }
  destruct Hcases
    as [(Hs & _) | [(Hs & _) | [(_ & Hno & _) | (_ & _ & E)]]];
    try congruence.
  eexists. split; [exact E |].
  split; [reflexivity |]. split; [reflexivity |].
  split; [split; reflexivity |].
  split.
  - eapply sameConfig_trans; [exact Hcfg |].
    unfold sameConfig. repeat split; reflexivity.
  - eapply sameCursor_trans; [exact Hcur |].
    unfold sameCursor. repeat split; reflexivity.
Qed.

(** The frames of a HOLD that starts with the timer on 0. *)
Lemma hold_phase (n : nat) (s : LissajousSketch) :
  state s = HOLD ->
  timer s = 0 ->
  cursor_ok s ->
  framesFor (holdDuration s) n ->
  (forall k, (k < n)%nat ->
     exists sk, runFrames k s = Some sk /\ state sk = HOLD /\
       timer sk = timer s + INR k /\ sameConfig s sk /\ sameCursor s sk) /\
  exists sn, runFrames n s = Some sn /\
    state sn = TRANSITION /\
    timer sn = 0 /\
    cursor_ok sn /\
    sameConfig s sn /\
    currentPhaseIndex sn <> currentPhaseIndex s /\
    array_get (phases s) (currentPhaseIndex sn) = Some (targetParams sn).
Proof.
  intros Hst Ht0 Hok (Hpos & Hle & Hlast).
  assert (Hbefore : forall k, (0 < k < n)%nat -> timer s + INR k < holdDuration s).
  { intros k Hk. rewrite Ht0.
    destruct Hlast as [-> | Hlt]; [lia |].
    assert (INR k <= INR n - 1).
    { replace (INR n - 1) with (INR (n - 1)).
      - apply le_INR. lia.
      - rewrite minus_INR by lia. cbn. lra. }
    lra. }
  assert (Hrun : forall k, (k < n)%nat ->
            exists sk, runFrames k s = Some sk /\ state sk = HOLD /\
              timer sk = timer s + INR k /\ sameConfig s sk /\ sameCursor s sk).
  { intros k Hk. destruct k as [| k'].
    - exists s. cbn [runFrames INR].
      split; [reflexivity |]. split; [exact Hst |]. split; [lra |].
      split; [apply sameConfig_refl | apply sameCursor_refl].
    - destruct (hold_run (S k') s Hst) as (sk & ? & ? & ? & ? & ? & _).
      + apply Hbefore. lia.
      + exists sk. repeat (split; [assumption |]). assumption. }
  split; [exact Hrun |].
  destruct n as [| m]; [lia |].
  destruct (Hrun m) as (sm & Hrm & Hstm & Htm & Hcfg & Hcur); [lia |].
  replace (S m) with (m + 1)%nat by lia. rewrite runFrames_add, Hrm.
  assert (Hokm : cursor_ok sm).
  { destruct Hcfg as (_ & Hph & _). destruct Hcur as (Hi & Hd & _).
    now apply (cursor_ok_same s). }
  destruct (hold_switch sm Hstm Hokm)
    as (sn & Hup & Hs & Ht & Hokn & Hcfgn & Hne & Hget & _).
  { destruct Hcfg as (_ & _ & _ & _ & _ & _ & -> & _).
    rewrite Htm, Ht0. rewrite S_INR in Hle. lra. }
  exists sn. cbn [runFrames]. rewrite Hup.
  split; [reflexivity |]. split; [exact Hs |]. split; [exact Ht |].
  split; [exact Hokn |].
  split; [eapply sameConfig_trans; eassumption |].
  destruct Hcfg as (_ & Hph & _). destruct Hcur as (Hi & _).
  split; [now rewrite <- Hi | now rewrite <- Hph].
Qed.

(** The frames of a strict-timing TRANSITION that starts with the timer
    on 0. *)
Lemma transition_phase (n : nat) (s : LissajousSketch) :
  state s = TRANSITION ->
  timer s = 0 ->
  _mode s <> harmonic ->
  framesFor (transitionDuration s) n ->
  (forall k, (k < n)%nat ->
     exists sk, runFrames k s = Some sk /\ state sk = TRANSITION /\
       timer sk = timer s + INR k /\ sameConfig s sk /\ sameCursor s sk) /\
  exists sn, runFrames n s = Some sn /\
    state sn = HOLD /\
    timer sn = 0 /\
    atRest sn /\
    sameConfig s sn /\
    sameCursor s sn.
Proof.
  intros Hst Ht0 Hm (Hpos & Hle & Hlast).
  assert (Hbefore : forall k, (0 < k < n)%nat ->
            timer s + INR k < transitionDuration s).
  { intros k Hk. rewrite Ht0.
    destruct Hlast as [-> | Hlt]; [lia |].
    assert (INR k <= INR n - 1).
    { replace (INR n - 1) with (INR (n - 1)).
      - apply le_INR. lia.
      - rewrite minus_INR by lia. cbn. lra. }
    lra. }
  assert (Hrun : forall k, (k < n)%nat ->
            exists sk, runFrames k s = Some sk /\ state sk = TRANSITION /\
              timer sk = timer s + INR k /\ sameConfig s sk /\ sameCursor s sk).
  { intros k Hk. destruct k as [| k'].
    - exists s. cbn [runFrames INR].
      split; [reflexivity |]. split; [exact Hst |]. split; [lra |].
      split; [apply sameConfig_refl | apply sameCursor_refl].
    - apply (transition_run (S k') s Hst Hm). apply Hbefore. lia. }
  split; [exact Hrun |].
  destruct n as [| m]; [lia |].
  destruct (Hrun m) as (sm & Hrm & Hstm & Htm & Hcfg & Hcur); [lia |].
  replace (S m) with (m + 1)%nat by lia. rewrite runFrames_add, Hrm.
  destruct (transition_finish sm Hstm)
    as (sn & Hup & Hs & Ht & Hrest & Hcfgn & Hcurn).
  { destruct Hcfg as (-> & _). exact Hm. }
  { destruct Hcfg as (_ & _ & _ & _ & _ & _ & _ & ->).
    rewrite Htm, Ht0. rewrite S_INR in Hle. lra. }
  exists sn. cbn [runFrames]. rewrite Hup.
  split; [reflexivity |]. split; [exact Hs |]. split; [exact Ht |].
  split; [exact Hrest |].
  split; [eapply sameConfig_trans; eassumption
         | eapply sameCursor_trans; eassumption].
Qed.

(** X3.  A HOLD that starts with the timer on 0 lasts
    max(1, ceil(holdDuration)) frames: before that the sketch stays in
    HOLD with the same index, direction and target, and on that frame it
    enters TRANSITION with the timer back on 0 and the target read at a
    new, different, valid index of the keyframes. *)
Theorem hold_lasts (n : nat) (s : LissajousSketch) :
  state s = HOLD ->
  timer s = 0 ->
  cursor_ok s ->
  framesFor (holdDuration s) n ->
  (forall k, (k < n)%nat ->
     exists sk, runFrames k s = Some sk /\
       state sk = HOLD /\ sameCursor s sk) /\
  exists sn, runFrames n s = Some sn /\
    state sn = TRANSITION /\
    timer sn = 0 /\
    cursor_ok sn /\
    currentPhaseIndex sn <> currentPhaseIndex s /\
    array_get (phases s) (currentPhaseIndex sn) = Some (targetParams sn).
Proof.
  intros Hst Ht0 Hok Hn.
  destruct (hold_phase n s Hst Ht0 Hok Hn) as [Hbefore Hlast]. split.
  - intros k Hk. destruct (Hbefore k Hk) as (sk & H1 & H2 & _ & _ & H5).
    exists sk. split; [exact H1 |]. split; [exact H2 | exact H5].
  - destruct Hlast as (sn & H1 & H2 & H3 & H4 & _ & H6 & H7).
    exists sn. repeat (split; [assumption |]). assumption.
Qed.

(** X4.  In the strict-timing modes (classic and table) a TRANSITION that
    starts with the timer on 0 lasts max(1, ceil(transitionDuration))
    frames, however far the engine has got: before that the sketch stays
    in TRANSITION towards the same target, and on that frame it is in
    HOLD with the timer on 0, the position exactly the target, zero
    velocity and the same index. *)
Theorem transition_lasts (n : nat) (s : LissajousSketch) :
  state s = TRANSITION ->
  timer s = 0 ->
  _mode s <> harmonic ->
  framesFor (transitionDuration s) n ->
  (forall k, (k < n)%nat ->
     exists sk, runFrames k s = Some sk /\
       state sk = TRANSITION /\ sameCursor s sk) /\
  exists sn, runFrames n s = Some sn /\
    state sn = HOLD /\
    timer sn = 0 /\
    currentParams sn = targetParams s /\
    currentVelocity sn = mkParams 0 0 0 /\
    currentPhaseIndex sn = currentPhaseIndex s.
Proof.
  intros Hst Ht0 Hm Hn.
  destruct (transition_phase n s Hst Ht0 Hm Hn) as [Hbefore Hlast]. split.
  - intros k Hk. destruct (Hbefore k Hk) as (sk & H1 & H2 & _ & _ & H5).
    exists sk. split; [exact H1 |]. split; [exact H2 | exact H5].
  - destruct Hlast as (sn & H1 & H2 & H3 & [H4 H4'] & _ & (H5 & _ & H6)).
    exists sn. split; [exact H1 |]. split; [exact H2 |]. split; [exact H3 |].
    split; [now rewrite H4, H6 |]. split; [exact H4' | exact H5].
Qed.

Lemma cycle_phase (nH nT : nat) (s : LissajousSketch) :
  state s = HOLD ->
  timer s = 0 ->
  cursor_ok s ->
  _mode s <> harmonic ->
  framesFor (holdDuration s) nH ->
  framesFor (transitionDuration s) nT ->
  exists s', runFrames (nH + nT) s = Some s' /\
    state s' = HOLD /\
    timer s' = 0 /\
    cursor_ok s' /\
    sameConfig s s' /\
    currentVelocity s' = mkParams 0 0 0 /\
    currentPhaseIndex s' <> currentPhaseIndex s /\
    array_get (phases s) (currentPhaseIndex s') = Some (currentParams s').
Proof.
  intros Hst Ht0 Hok Hm HnH HnT.
  destruct (hold_phase nH s Hst Ht0 Hok HnH)
    as [_ (s1 & Hr1 & Hst1 & Ht1 & Hok1 & Hcfg1 & Hne1 & Hget1)].
  assert (Hm1 : _mode s1 <> harmonic) by (destruct Hcfg1 as (-> & _); exact Hm).
  assert (HnT1 : framesFor (transitionDuration s1) nT).
  { destruct Hcfg1 as (_ & _ & _ & _ & _ & _ & _ & ->). exact HnT. }
  destruct (transition_phase nT s1 Hst1 Ht1 Hm1 HnT1)
    as [_ (s2 & Hr2 & Hst2 & Ht2 & [Hc2 Hv2] & Hcfg2 & (Hi2 & Hd2 & Htg2))].
  exists s2. rewrite runFrames_add, Hr1.
  split; [exact Hr2 |]. split; [exact Hst2 |]. split; [exact Ht2 |].
  split.
  { destruct Hcfg2 as (_ & Hph & _). now apply (cursor_ok_same s1). }
  split; [eapply sameConfig_trans; eassumption |].
  split; [exact Hv2 |].
  split; [now rewrite Hi2 |].
  rewrite Hi2, Hc2, Htg2. exact Hget1.
Qed.

(** X5.  One HOLD and one strict-timing TRANSITION make a closed cycle:
    from HOLD with the timer on 0 and a valid cursor, after
    max(1, ceil(holdDuration)) + max(1, ceil(transitionDuration)) frames
    the sketch is in HOLD again with the timer on 0, a valid cursor and
    the same configuration, at rest exactly on a keyframe whose index
    differs from the one it left. *)
Theorem hold_transition_cycle (nH nT : nat) (s : LissajousSketch) :
  state s = HOLD ->
  timer s = 0 ->
  cursor_ok s ->
  _mode s <> harmonic ->
  framesFor (holdDuration s) nH ->
  framesFor (transitionDuration s) nT ->
  exists s', runFrames (nH + nT) s = Some s' /\
    state s' = HOLD /\
    timer s' = 0 /\
    cursor_ok s' /\
    sameConfig s s' /\
    currentVelocity s' = mkParams 0 0 0 /\
    currentPhaseIndex s' <> currentPhaseIndex s /\
    array_get (phases s) (currentPhaseIndex s') = Some (currentParams s').
Proof. exact (cycle_phase nH nT s). Qed.

Lemma drawClassic_reads_position (s1 s2 : LissajousSketch)
  (width height : R) (theme : Theme) :
  currentParams s1 = currentParams s2 ->
  drawClassic s1 width height theme = drawClassic s2 width height theme.
Proof.
  intros H. unfold drawClassic, getPointAt. rewrite H. reflexivity.
Qed.

(** X6.  A sketch that holds at rest does not move: while the timer stays
    short of [holdDuration], every frame leaves the position on the target
    and the velocity zero, in every mode and whatever the stiffness, the
    damping and the mass, so the classic drawing is the same at every
    frame of the hold. *)
Theorem hold_is_static (k : nat) (s : LissajousSketch)
  (width height : R) (theme : Theme) :
  state s = HOLD ->
  atRest s ->
  timer s + INR k < holdDuration s ->
  exists sk, runFrames k s = Some sk /\
    state sk = HOLD /\
    currentParams sk = targetParams s /\
    currentVelocity sk = mkParams 0 0 0 /\
    targetParams sk = targetParams s /\
    drawClassic sk width height theme = drawClassic s width height theme.
Proof.
  intros Hst Hr Hlt.
  destruct (hold_run k s Hst Hlt) as (sk & Hrun & Hstk & _ & _ & Hcur & Hrest).
  destruct (Hrest Hr) as [[Hck Hvk] Hsame].
  exists sk. split; [exact Hrun |]. split; [exact Hstk |].
  split; [rewrite Hsame; apply Hr |]. split; [exact Hvk |].
  split; [apply Hcur |]. now apply drawClassic_reads_position.
Qed.

(** *** The sketch under the initial controls of the page *)

Lemma framesFor_intro (d : R) (n : nat) :
  (0 < n)%nat -> d <= IZR (Z.of_nat n) -> IZR (Z.of_nat n) - 1 < d ->
  framesFor d n.
Proof.
  intros Hn Hle Hlt. unfold framesFor. rewrite INR_IZR_INZ. auto.
Qed.

Lemma initialSketch_fields :
  state Editor.initialSketch = HOLD /\
  timer Editor.initialSketch = 0 /\
  _mode Editor.initialSketch = classic /\
  cursor_ok Editor.initialSketch /\
  atRest Editor.initialSketch /\
  holdDuration Editor.initialSketch = (10 / 8 - 10 / 8 * (45 / 100)) * 60 /\
  transitionDuration Editor.initialSketch = 10 / 8 * (45 / 100) * 60.
Proof.
  repeat split; try reflexivity; cbn; lia.
Qed.

Lemma initialSketch_hold_frames : framesFor (holdDuration Editor.initialSketch) 42.
Proof.
  destruct initialSketch_fields as (_ & _ & _ & _ & _ & -> & _).
  apply framesFor_intro; [lia | cbn; lra | cbn; lra].
Qed.

Lemma initialSketch_transition_frames :
  framesFor (transitionDuration Editor.initialSketch) 34.
Proof.
  destruct initialSketch_fields as (_ & _ & _ & _ & _ & _ & ->).
  apply framesFor_intro; [lia | cbn; lra | cbn; lra].
Qed.

(** Under the initial controls a hold of 41.25 frames takes 42 frames. *)
Lemma hold_lasts_witness :
  exists sn, runFrames 42 Editor.initialSketch = Some sn /\
    state sn = TRANSITION /\
    timer sn = 0 /\
    cursor_ok sn /\
    currentPhaseIndex sn <> currentPhaseIndex Editor.initialSketch /\
    array_get (phases Editor.initialSketch) (currentPhaseIndex sn)
      = Some (targetParams sn).
Proof.
  destruct initialSketch_fields as (Hst & Ht & _ & Hok & _).
  exact (proj2 (hold_lasts 42 Editor.initialSketch Hst Ht Hok
                  initialSketch_hold_frames)).
Defined.

(** The first 41 frames of that hold leave the figure where it is. *)
Lemma hold_is_static_witness :
  exists sk, runFrames 41 Editor.initialSketch = Some sk /\
    state sk = HOLD /\
    currentParams sk = targetParams Editor.initialSketch /\
    currentVelocity sk = mkParams 0 0 0 /\
    targetParams sk = targetParams Editor.initialSketch /\
    drawClassic sk 1080 1350 (mkTheme "#E4FF60" "#BBBBBB") =
    drawClassic Editor.initialSketch 1080 1350 (mkTheme "#E4FF60" "#BBBBBB").
Proof.
  destruct initialSketch_fields as (Hst & Ht & _ & _ & Hr & Hh & _).
  apply (hold_is_static 41 Editor.initialSketch 1080 1350
           (mkTheme "#E4FF60" "#BBBBBB") Hst Hr).
  rewrite Ht, Hh, INR_IZR_INZ. cbn. lra.
Defined.

(** One cycle under the initial controls takes 42 + 34 = 76 frames. *)
Lemma hold_transition_cycle_witness :
  exists s', runFrames (42 + 34) Editor.initialSketch = Some s' /\
    state s' = HOLD /\
    timer s' = 0 /\
    cursor_ok s' /\
    sameConfig Editor.initialSketch s' /\
    currentVelocity s' = mkParams 0 0 0 /\
    currentPhaseIndex s' <> currentPhaseIndex Editor.initialSketch /\
    array_get (phases Editor.initialSketch) (currentPhaseIndex s')
      = Some (currentParams s').
Proof.
  destruct initialSketch_fields as (Hst & Ht & Hm & Hok & _).
  apply (hold_transition_cycle 42 34 Editor.initialSketch Hst Ht Hok).
  - rewrite Hm. discriminate.
  - exact initialSketch_hold_frames.
  - exact initialSketch_transition_frames.
Defined.

(** Any number of frames from the initial sketch. *)
Lemma runFrames_never_fails_witness :
  exists s', runFrames 600 Editor.initialSketch = Some s' /\
    cursor_ok s' /\
    sameConfig Editor.initialSketch s' /\
    t s' = t Editor.initialSketch + INR 600 * timeStep Editor.initialSketch.
Proof.
  destruct initialSketch_fields as (_ & _ & _ & Hok & _).
  exact (runFrames_never_fails 600 Editor.initialSketch Hok).
Defined.

(** A transition under way in classic mode. *)
Lemma transition_lasts_witness :
  exists sn, runFrames 120 (set_timer 0 lastTransitionFrame) = Some sn /\
    state sn = HOLD /\
    timer sn = 0 /\
    currentParams sn = targetParams (set_timer 0 lastTransitionFrame) /\
    currentVelocity sn = mkParams 0 0 0 /\
    currentPhaseIndex sn = currentPhaseIndex (set_timer 0 lastTransitionFrame).
Proof.
  apply (transition_lasts 120 (set_timer 0 lastTransitionFrame)).
  - reflexivity.
  - reflexivity.
  - discriminate.
  - apply framesFor_intro; [lia | cbn; lra | cbn; lra].
Defined.

End CycleProps.

(** ** The engine: snapping and the first step from rest *)

Module EngineRules.

Import Lissajous EngineProps.

Local Open Scope R_scope.

(** X7.  When the engine snaps.  In classic and table mode it always
    integrates, and then puts the field on its target with zero velocity
    exactly when the displacement before the step and the velocity after
    it are both under 0.001.  In harmonic mode it does so when the
    displacement and the velocity before the step are both under 1e-5
    (without integrating), or when the displacement before the step and
    the velocity after it are both under 1e-4; in every other case the
    field holds the integrated velocity and position. *)
Theorem snap_rules (key : Key) (s : LissajousSketch) :
  let d := get (targetParams s) key - get (currentParams s) key in
  let v := get (currentVelocity s) key in
  let s' := applySpringForce key s in
  (_mode s <> harmonic ->
   let v' := v + (d * stiffness s - v * damping s) / mass s in
   (Rabs d < 1 / 1000 /\ Rabs v' < 1 / 1000 ->
    get (currentParams s') key = get (targetParams s) key /\
    get (currentVelocity s') key = 0) /\
   (~ (Rabs d < 1 / 1000 /\ Rabs v' < 1 / 1000) ->
    get (currentParams s') key = get (currentParams s) key + v' /\
    get (currentVelocity s') key = v')) /\
  (_mode s = harmonic ->
   let k := k_eff (Rabs d) in
   let v' := v + (d * k - v * (2 * sqrt (mass s * k) * dampZeta)) / mass s in
   let early := Rabs d < 1 / 100000 /\ Rabs v < 1 / 100000 in
   let late := Rabs d < 1 / 10000 /\ Rabs v' < 1 / 10000 in
   (early \/ late ->
    get (currentParams s') key = get (targetParams s) key /\
    get (currentVelocity s') key = 0) /\
   (~ early /\ ~ late ->
    get (currentParams s') key = get (currentParams s) key + v' /\
    get (currentVelocity s') key = v')).
Proof.
  intros d v s'. split; intros Hm.
  - exact (linear_snap_rule key s Hm).
  - exact (harmonic_snap_rule key s Hm).
Qed.

(** X8.  The first harmonic step from rest.  With zero velocity and a
    positive mass, a call in harmonic mode leaves the displacement either
    zero (a snap) or multiplied by [1 - k_eff / mass]; the latter whenever
    the displacement is 1e-4 or more.  So the field does not pass its
    target when the effective stiffness is at most the mass (in
    particular for every mass of 1 or more), and it does pass it when the
    mass is smaller than the effective stiffness. *)
Theorem harmonic_first_step (key : Key) (s : LissajousSketch) :
  _mode s = harmonic ->
  0 < mass s ->
  get (currentVelocity s) key = 0 ->
  let d := get (targetParams s) key - get (currentParams s) key in
  let k := k_eff (Rabs d) in
  let s' := applySpringForce key s in
  let d' := get (targetParams s') key - get (currentParams s') key in
  (d' = 0 \/ d' = d * (1 - k / mass s)) /\
  (1 / 10000 <= Rabs d -> d' = d * (1 - k / mass s)) /\
  (k <= mass s -> 0 <= d * d' /\ Rabs d' <= Rabs d) /\
  (1 <= mass s -> 0 <= d * d' /\ Rabs d' <= Rabs d) /\
  (mass s < k -> 1 / 10000 <= Rabs d -> d * d' < 0).
Proof.
  intros Hm Hmass Hv d k s' d'.
  assert (Ht : targetParams s' = targetParams s)
    by apply (applySpringForce_frame key s).
  destruct (harmonic_snap_rule key s Hm) as [Hsnap Hrun].
  fold d k s' in Hsnap, Hrun. rewrite Hv in Hsnap, Hrun.
  assert (Hcases : d' = 0 \/ d' = d * (1 - k / mass s)).
  { match type of Hsnap with ?P -> _ =>
      destruct (Classical_Prop.classic P) as [Hyes | Hno] end.
    - left. destruct (Hsnap Hyes) as [Hc _]. unfold d'. rewrite Ht, Hc. ring.
    - right. destruct Hrun as [Hc _]; [tauto |].
      unfold d'. rewrite Ht, Hc. unfold d. field. lra. }
  assert (Hfar : 1 / 10000 <= Rabs d -> d' = d * (1 - k / mass s)).
  { intros Hd. destruct Hrun as [Hc _]; [split; intros [H _]; lra |].
    unfold d'. rewrite Ht, Hc. unfold d. field. lra. }
  assert (Hk : 1 / 100000 <= k <= 1) by (apply k_eff_bounds, Rabs_pos).
  assert (Hsafe : k <= mass s -> 0 <= d * d' /\ Rabs d' <= Rabs d).
  { intros Hle.
    assert (Hf : 0 <= 1 - k / mass s <= 1).
    { assert (0 <= k / mass s <= 1).
      { split.
        - apply Rmult_le_pos; [lra | left; now apply Rinv_0_lt_compat].
        - apply (Rmult_le_reg_r (mass s)); [exact Hmass |].
          unfold Rdiv. rewrite Rmult_assoc, Rinv_l by lra. lra. }
      lra. }
    destruct Hcases as [-> | ->].
    - rewrite Rmult_0_r, Rabs_R0. split; [lra | apply Rabs_pos].
    - split.
      + replace (d * (d * (1 - k / mass s))) with (d * d * (1 - k / mass s)) by ring.
        apply Rmult_le_pos; [nra | lra].
      + rewrite Rabs_mult, (Rabs_pos_eq (1 - k / mass s)) by lra.
        pose proof (Rabs_pos d). nra. }
  split; [exact Hcases |]. split; [exact Hfar |]. split; [exact Hsafe |].
  split; [intros H1; apply Hsafe; lra |].
  intros Hlt Hd. rewrite (Hfar Hd).
  assert (Hneg : 1 - k / mass s < 0).
  { assert (1 < k / mass s).
    { apply (Rmult_lt_reg_r (mass s)); [exact Hmass |].
      unfold Rdiv. rewrite Rmult_assoc, Rinv_l by lra. lra. }
    lra. }
  assert (Hd0 : 0 < d * d).
  { assert (d <> 0) by (intros E; rewrite E, Rabs_R0 in Hd; lra). nra. }
  replace (d * (d * (1 - k / mass s))) with (d * d * (1 - k / mass s)) by ring.
  nra.
Qed.

(** Mass 2: the field [b], at rest on 1 with target 2, moves half way. *)
Lemma harmonic_first_step_witness :
  let s := harmonicAt 2 1 0 2 in
  let s' := applySpringForce key_b s in
  get (targetParams s') key_b - get (currentParams s') key_b = 1 / 2.
Proof.
  destruct (harmonic_first_step key_b (harmonicAt 2 1 0 2)) as (_ & Hfar & _).
  - reflexivity.
  - cbn. lra.
  - reflexivity.
  - cbv zeta in Hfar |- *. rewrite Hfar.
    + cbn [harmonicAt get targetParams currentParams b mass].
      replace (2 - 1) with 1 by lra. rewrite Rabs_R1, (k_eff_far 1) by lra. lra.
    + cbn [harmonicAt get targetParams currentParams b].
      replace (2 - 1) with 1 by lra. rewrite Rabs_R1. lra.
Defined.

(** A displacement multiplied by [1 - K / m]. *)
Lemma scaled_displacement (d K m : R) :
  0 < m ->
  (0 <= K <= m ->
   0 <= d * (d * (1 - K / m)) /\ Rabs (d * (1 - K / m)) <= Rabs d) /\
  (m < K -> d <> 0 -> d * (d * (1 - K / m)) < 0).
Proof.
  intros Hm.
  assert (Hq : K / m * m = K) by (field; lra).
  split.
  - intros HK.
    assert (Hf : 0 <= 1 - K / m <= 1).
    { assert (0 <= K / m) by (apply Rmult_le_pos; [lra | left; now apply Rinv_0_lt_compat]).
      assert (K / m <= 1) by (apply (Rmult_le_reg_r m); [exact Hm | lra]).
      lra. }
    split.
    + replace (d * (d * (1 - K / m))) with (d * d * (1 - K / m)) by ring.
      apply Rmult_le_pos; [nra | lra].
    + rewrite Rabs_mult, (Rabs_pos_eq (1 - K / m)) by lra.
      pose proof (Rabs_pos d). nra.
  - intros HK Hd.
    assert (1 < K / m) by (apply (Rmult_lt_reg_r m); [exact Hm | lra]).
    assert (0 < d * d) by nra.
    replace (d * (d * (1 - K / m))) with (d * d * (1 - K / m)) by ring.
    nra.
Qed.

Lemma linear_step_from_rest (key : Key) (s : LissajousSketch) :
  _mode s <> harmonic ->
  0 < mass s ->
  get (currentVelocity s) key = 0 ->
  let d := get (targetParams s) key - get (currentParams s) key in
  let s' := applySpringForce key s in
  let d' := get (targetParams s') key - get (currentParams s') key in
  (d' = 0 \/ d' = d * (1 - stiffness s / mass s)) /\
  (1 / 1000 <= Rabs d -> d' = d * (1 - stiffness s / mass s)) /\
  (0 <= stiffness s <= mass s -> 0 <= d * d' /\ Rabs d' <= Rabs d) /\
  (mass s < stiffness s -> 1 / 1000 <= Rabs d -> d * d' < 0).
Proof.
  intros Hm Hmass Hv d s' d'.
  assert (Ht : targetParams s' = targetParams s)
    by apply (applySpringForce_frame key s).
  destruct (linear_snap_rule key s Hm) as [Hsnap Hrun].
  fold d s' in Hsnap, Hrun. rewrite Hv in Hsnap, Hrun.
  destruct (scaled_displacement d (stiffness s) (mass s) Hmass) as [Hsafe Hover].
  assert (Hcases : d' = 0 \/ d' = d * (1 - stiffness s / mass s)).
  { match type of Hsnap with ?P -> _ =>
      destruct (Classical_Prop.classic P) as [Hyes | Hno] end.
    - left. destruct (Hsnap Hyes) as [Hc _]. unfold d'. rewrite Ht, Hc. ring.
    - right. destruct (Hrun Hno) as [Hc _].
      unfold d'. rewrite Ht, Hc. unfold d. field. lra. }
  assert (Hfar : 1 / 1000 <= Rabs d -> d' = d * (1 - stiffness s / mass s)).
  { intros Hd. destruct Hrun as [Hc _]; [intros [H _]; lra |].
    unfold d'. rewrite Ht, Hc. unfold d. field. lra. }
  split; [exact Hcases |]. split; [exact Hfar |]. split.
  - intros Hk. destruct Hcases as [-> | ->].
    + rewrite Rmult_0_r, Rabs_R0. split; [lra | apply Rabs_pos].
    + now apply Hsafe.
  - intros Hlt Hd. rewrite (Hfar Hd). apply Hover; [exact Hlt |].
    intros E. rewrite E, Rabs_R0 in Hd. lra.
Qed.

(** X9.  The first step of the linear engine (classic and table mode) from
    rest.  With zero velocity and a positive mass, a call leaves the
    displacement either zero (a snap) or multiplied by
    [1 - stiffness / mass], the latter whenever the displacement is 0.001
    or more: the damping plays no part in it.  So the field does not pass
    its target when the stiffness is between 0 and the mass, and it does
    pass it when the stiffness is larger than the mass, whatever the
    damping. *)
Theorem linear_first_step (key : Key) (s : LissajousSketch) :
  _mode s <> harmonic ->
  0 < mass s ->
  get (currentVelocity s) key = 0 ->
  let d := get (targetParams s) key - get (currentParams s) key in
  let s' := applySpringForce key s in
  let d' := get (targetParams s') key - get (currentParams s') key in
  (d' = 0 \/ d' = d * (1 - stiffness s / mass s)) /\
  (1 / 1000 <= Rabs d -> d' = d * (1 - stiffness s / mass s)) /\
  (0 <= stiffness s <= mass s -> 0 <= d * d' /\ Rabs d' <= Rabs d) /\
  (mass s < stiffness s -> 1 / 1000 <= Rabs d -> d * d' < 0).
Proof. exact (linear_step_from_rest key s). Qed.

(** Stiffness 0.2 and mass 0.1, the ends of the two sliders: the field
    [b], at rest on 1 with target 2, ends on 3. *)
Lemma linear_first_step_witness :
  let s := set_mass (1 / 10) (set_stiffness (2 / 10) (set__mode classic (harmonicAt 1 1 0 2))) in
  let s' := applySpringForce key_b s in
  get (targetParams s') key_b - get (currentParams s') key_b = -1.
Proof.
  destruct (linear_first_step key_b
    (set_mass (1 / 10) (set_stiffness (2 / 10) (set__mode classic (harmonicAt 1 1 0 2)))))
    as (_ & Hfar & _).
  - discriminate.
  - cbn. lra.
  - reflexivity.
  - cbv zeta in Hfar |- *. rewrite Hfar.
    + cbn. field.
    + cbn [harmonicAt set_mass set_stiffness set__mode get targetParams currentParams b].
      replace (2 - 1) with 1 by lra. rewrite Rabs_R1. lra.
Defined.

End EngineRules.

(** ** Geometry of the drawings *)

Module DrawFacts.

Import Lissajous DrawProps.

Local Open Scope R_scope.

Lemma scale_bounds (width height : R) :
  0 <= width -> 0 <= height ->
  let scale := Rmin width height * (35 / 100) in
  0 <= scale /\ scale <= width * (35 / 100) /\ scale <= height * (35 / 100).
Proof.
  intros Hw Hh scale. unfold scale.
  pose proof (Rmin_l width height). pose proof (Rmin_r width height).
  assert (0 <= Rmin width height) by (apply Rmin_glb; assumption).
  lra.
Qed.

Lemma sin_times_scale (x scale : R) :
  0 <= scale -> - scale <= 1 * sin x * scale <= scale.
Proof.
  intros Hs. pose proof (SIN_bound x) as [Hlo Hhi]. nra.
Qed.

Lemma polyline_Forall (P : CanvasOp -> Prop) (samples : nat) (point : nat -> R * R) :
  (forall i, P (moveTo (fst (point i)) (snd (point i))) /\
             P (lineTo (fst (point i)) (snd (point i)))) ->
  Forall P (polyline samples point).
Proof.
  intros H. unfold polyline. apply Forall_forall. intros op Hin.
  apply in_map_iff in Hin. destruct Hin as (i & <- & _).
  specialize (H i). destruct (point i) as [x y].
  destruct H. now destruct (Nat.eqb i 0).
Qed.

(** X10.  On a surface of non-negative width and height, every point the
    classic drawing and the harmonic drawing move or draw a line to lies
    on the surface, for every sketch. *)
Theorem drawings_stay_inside (s : LissajousSketch) (width height : R) (theme : Theme) :
  0 <= width -> 0 <= height ->
  Forall (opInside width height) (drawClassic s width height theme) /\
  Forall (opInside width height) (drawHarmonic s width height theme).
Proof.
  intros Hw Hh.
  destruct (scale_bounds width height Hw Hh) as (Hs0 & Hsw & Hsh).
  assert (Hsmall : forall l : list CanvasOp,
            (forall op, In op l -> opInside width height op) ->
            Forall (opInside width height) l).
  { intros l H. now apply Forall_forall. }
  split.
  - unfold drawClassic.
    set (scale := Rmin width height * (35 / 100)) in *.
    apply Forall_app; split; [| apply Forall_app; split].
    + repeat (apply Forall_cons; [exact I |]). apply Forall_nil.
    + generalize (INR 4000). intros N.
      apply polyline_Forall. intros i.
      unfold getPointAt. cbn [fst snd opInside].
      pose proof (sin_times_scale
        (a (currentParams s) * (INR i / N * (PI * 2)) + delta (currentParams s))
        scale Hs0).
      pose proof (sin_times_scale
        (b (currentParams s) * (INR i / N * (PI * 2))) scale Hs0).
      lra.
    + repeat (apply Forall_cons; [exact I |]). apply Forall_nil.
  - unfold drawHarmonic, drawSpring.
    set (scale := Rmin width height * (35 / 100)) in *.
    pose proof (sin_times_scale (1 * t s + PI / 2) scale Hs0) as Hpx.
    pose proof (sin_times_scale (1 * t s) scale Hs0) as Hpy.
    apply Forall_app; split; [| apply Forall_app; split;
      [| apply Forall_app; split; [| apply Forall_app; split;
        [| apply Forall_app; split]]]].
    + repeat (apply Forall_cons; [exact I |]). apply Forall_nil.
    + unfold harmonicCurvePoint. generalize (INR 2000). intros N.
      apply polyline_Forall. intros i.
      cbn [fst snd opInside].
      pose proof (sin_times_scale (1 * (INR i / N * (PI * 2)) + PI / 2)
                    scale Hs0).
      pose proof (sin_times_scale (1 * (INR i / N * (PI * 2))) scale Hs0).
      lra.
    + repeat (apply Forall_cons; [cbn [opInside]; try exact I; lra |]).
      apply Forall_nil.
    + repeat (apply Forall_cons; [cbn [opInside]; try exact I; lra |]).
      apply Forall_nil.
    + repeat (apply Forall_cons; [cbn [opInside]; try exact I; lra |]).
      apply Forall_nil.
    + repeat (apply Forall_cons; [cbn [opInside]; try exact I; lra |]).
      apply Forall_nil.
Qed.

(** The 1080 x 1350 surface of the page. *)
Lemma drawings_stay_inside_witness :
  Forall (opInside 1080 1350)
    (drawClassic new_LissajousSketch 1080 1350 (mkTheme "#E4FF60" "#BBBBBB")) /\
  Forall (opInside 1080 1350)
    (drawHarmonic new_LissajousSketch 1080 1350 (mkTheme "#E4FF60" "#BBBBBB")).
Proof.
  apply (drawings_stay_inside new_LissajousSketch 1080 1350
           (mkTheme "#E4FF60" "#BBBBBB")); lra.
Defined.

Lemma sin_whole_turns (n : nat) (x : R) : sin (INR n * (PI * 2) + x) = sin x.
Proof.
  replace (INR n * (PI * 2) + x) with (x + 2 * INR n * PI) by ring.
  apply sin_period.
Qed.

Lemma last_sample (samples : nat) :
  (0 < samples)%nat -> INR samples / INR samples * (PI * 2) = PI * 2.
Proof.
  intros H. field. apply not_0_INR. lia.
Qed.

Lemma first_sample (samples : nat) :
  (0 < samples)%nat -> INR 0 / INR samples * (PI * 2) = 0.
Proof.
  intros H. cbn [INR]. field. apply not_0_INR. lia.
Qed.

(** X11.  When the frequencies [a] and [b] of the position are whole
    numbers (as on every keyframe), the curve of the classic drawing is
    closed: its last sample, a line to, ends on the point its first
    sample moved to. *)
Theorem classic_curve_is_closed (s : LissajousSketch) (na nb : nat)
  (width height : R) (theme : Theme) :
  a (currentParams s) = INR na ->
  b (currentParams s) = INR nb ->
  exists x y,
    nth_error (drawClassic s width height theme) 5 = Some (moveTo x y) /\
    nth_error (drawClassic s width height theme) (5 + 4000) = Some (lineTo x y).
Proof.
  intros Ha Hb.
  set (scale := Rmin width height * (35 / 100)).
  exists (width / 2 + 1 * sin (delta (currentParams s)) * scale),
         (height / 2 + 1 * sin 0 * scale).
  assert (Hnth : forall i, (i <= 4000)%nat ->
    nth_error (drawClassic s width height theme) (5 + i) =
    Some (if Nat.eqb i 0
          then moveTo
                 (width / 2 + fst (getPointAt s (INR i / INR 4000 * (PI * 2))) * scale)
                 (height / 2 + snd (getPointAt s (INR i / INR 4000 * (PI * 2))) * scale)
          else lineTo
                 (width / 2 + fst (getPointAt s (INR i / INR 4000 * (PI * 2))) * scale)
                 (height / 2 + snd (getPointAt s (INR i / INR 4000 * (PI * 2))) * scale))).
  { intros i Hi. unfold drawClassic.
    rewrite nth_error_app2 by (cbn [length]; lia).
    replace (5 + i - _)%nat with i by (cbn [length]; lia).
    rewrite nth_error_app1 by (rewrite polyline_length; lia).
    rewrite polyline_nth by exact Hi. reflexivity. }
  split.
  - pose proof (Hnth 0%nat (Nat.le_0_l 4000)) as H0.
    change (5 + 0)%nat with 5%nat in H0. rewrite H0.
    rewrite first_sample by lia.
    unfold getPointAt. cbn [fst snd Nat.eqb].
    rewrite !Rmult_0_r, Rplus_0_l. reflexivity.
  - rewrite (Hnth 4000%nat) by lia. rewrite last_sample by lia.
    unfold getPointAt. cbn [fst snd].
    rewrite Ha, Hb, sin_whole_turns.
    replace (INR nb * (PI * 2)) with (INR nb * (PI * 2) + 0) by ring.
    rewrite sin_whole_turns. reflexivity.
Qed.

(** The first keyframe, 1 : 1. *)
Lemma classic_curve_is_closed_witness :
  exists x y,
    nth_error (drawClassic new_LissajousSketch 1080 1350
                 (mkTheme "#E4FF60" "#BBBBBB")) 5 = Some (moveTo x y) /\
    nth_error (drawClassic new_LissajousSketch 1080 1350
                 (mkTheme "#E4FF60" "#BBBBBB")) (5 + 4000) = Some (lineTo x y).
Proof.
  apply (classic_curve_is_closed new_LissajousSketch 1 1 1080 1350
           (mkTheme "#E4FF60" "#BBBBBB")); reflexivity.
Defined.

Lemma last_app_cons {A : Type} (l : list A) (x : A) (l' : list A) (d : A) :
  last (l ++ x :: l') d = last (x :: l') d.
Proof.
  induction l as [| y l IH]; [reflexivity |].
  cbn [app]. destruct (l ++ x :: l') eqn:E.
  - destruct l; discriminate.
  - rewrite <- IH. reflexivity.
Qed.

Lemma on_circle (u cx cy scale : R) :
  let x := cx + 1 * sin (1 * u + PI / 2) * scale in
  let y := cy + 1 * sin (1 * u) * scale in
  (x - cx) * (x - cx) + (y - cy) * (y - cy) = scale * scale.
Proof.
  intros x y. unfold x, y.
  replace (1 * u + PI / 2) with (PI / 2 + u) by ring.
  rewrite <- cos_sin. replace (1 * u) with u by ring.
  pose proof (sin2_cos2 u) as H. unfold Rsqr in H. nra.
Qed.

(** X12.  In harmonic mode the figure is a circle of radius
    0.35 * min(width, height) about the centre of the surface: each of
    the 2001 samples of the traced curve lies on it, and so does the
    centre of the square drawn last, which marks the point for the
    current [t]. *)
Theorem harmonic_figure_is_a_circle (s : LissajousSketch)
  (width height : R) (theme : Theme) :
  let scale := Rmin width height * (35 / 100) in
  let onCircle := fun x y : R =>
    (x - width / 2) * (x - width / 2) + (y - height / 2) * (y - height / 2)
    = scale * scale in
  (forall i, (i <= 2000)%nat ->
     exists x y,
       nth_error (drawHarmonic s width height theme) (5 + i) =
         Some (if Nat.eqb i 0 then moveTo x y else lineTo x y) /\
       onCircle x y) /\
  exists px py,
    last (drawHarmonic s width height theme) beginPath =
      fillRect (px - 20 / 2) (py - 20 / 2) 20 20 /\
    onCircle px py.
Proof.
  intros scale onCircle. split.
  - intros i Hi.
    exists (width / 2 + 1 * sin (1 * (INR i / INR 2000 * (PI * 2)) + PI / 2) * scale),
           (height / 2 + 1 * sin (1 * (INR i / INR 2000 * (PI * 2))) * scale).
    split.
    + unfold drawHarmonic.
      rewrite nth_error_app2 by (cbn [length]; lia).
      replace (5 + i - _)%nat with i by (cbn [length]; lia).
      rewrite nth_error_app1 by (rewrite polyline_length; lia).
      rewrite polyline_nth by exact Hi. reflexivity.
    + apply on_circle.
  - exists (width / 2 + 1 * sin (1 * t s + PI / 2) * scale),
           (height / 2 + 1 * sin (1 * t s) * scale).
    split; [| apply on_circle].
    unfold drawHarmonic, drawSpring.
    rewrite !app_assoc, last_app_cons. reflexivity.
Qed.

End DrawFacts.

(** ** The capture loop: the order of the snapshots *)

Module CaptureFacts.

Import PrimFloat Recorder FloatOrder CaptureProps.

Local Open Scope float_scope.

Section Loop.

Context {Blob : Type} (toBlob : float -> option Blob).

Lemma snapshotLog_shape (times : list float) :
  forall (c : Capture) (r : Recorder Blob),
  let log := snapshotLog toBlob times c r in
  map fst log = seq (frameCount c) (length log) /\
  snapshots toBlob times c r = (frameCount c + length log)%nat /\
  Forall (fun e => In (snd e) times /\
                   (boundary (fst e) <=? snd e - startTime c) = true /\
                   (snd e - startTime c <? totalDuration) = true) log.
Proof.
  unfold snapshots.
  induction times as [| time rest IH]; intros c r; cbn [captureLoop snapshotLog].
  - cbn. repeat split; [lia | constructor].
  - destruct (captureFrame_cases toBlob c time r)
      as [[_ ->] | [(Hlt & Hdue & ->) | (_ & _ & ->)]].
    + cbn. repeat split; [lia | constructor].
    + specialize (IH (mkCapture (bitrate c) (startTime c) (S (frameCount c)))
                     (pushBlob (toBlob time) r)).
      cbv zeta in IH. cbn [frameCount startTime] in IH |- *.
      destruct IH as (Hidx & Hn & Hall).
      rewrite (proj2 (Nat.ltb_lt _ _) (Nat.lt_succ_diag_r (frameCount c))).
      cbn [app map fst length seq]. rewrite Hidx, Hn.
      split; [reflexivity |]. split; [lia |].
      constructor.
      * cbn [fst snd]. split; [left; reflexivity | split; [exact Hdue |]].
        apply leb_total; [vm_compute; reflexivity | | exact Hlt].
        exact (leb_number _ _ Hdue).
      * eapply Forall_impl; [| exact Hall].
        intros e (Hin & H1 & H2). split; [right; exact Hin | split; assumption].
    + specialize (IH c r). cbv zeta in IH.
      destruct IH as (Hidx & Hn & Hall).
      rewrite Nat.ltb_irrefl. cbn [app].
      split; [exact Hidx |]. split; [exact Hn |].
      eapply Forall_impl; [| exact Hall].
      intros e (Hin & H1 & H2). split; [right; exact Hin | split; assumption].
Qed.

(** X13.  Whatever the callbacks (in any order, however sparse), the
    snapshots are numbered consecutively from the starting frame count,
    each is taken at one of the callbacks, never before the expected time
    [k * interval] of its frame [k] and never at or after the total
    duration, and the final frame count is the starting count plus the
    number of snapshots.  The times compared are the doubles the code
    computes. *)
Theorem snapshots_in_order_never_early
  (times : list float) (c : Capture) (r : Recorder Blob) :
  let log := snapshotLog toBlob times c r in
  map fst log = seq (frameCount c) (length log) /\
  snapshots toBlob times c r = (frameCount c + length log)%nat /\
  Forall (fun e => In (snd e) times /\
                   (boundary (fst e) <=? snd e - startTime c) = true /\
                   (snd e - startTime c <? totalDuration) = true) log.
Proof. exact (snapshotLog_shape times c r). Qed.

End Loop.

End CaptureFacts.

(** ** Encoding: file names and outcomes *)

Module EncoderProps.

Import Recorder Page Encoder.

Local Open Scope string_scope.

Lemma length_append (a b : string) :
  String.length (a ++ b) = (String.length a + String.length b)%nat.
Proof. induction a as [| c a IH]; cbn; [reflexivity | now rewrite IH]. Qed.

Lemma append_cancel_r (s : string) : forall a b : string,
  a ++ s = b ++ s -> a = b.
Proof.
  induction a as [| c a IH]; intros [| c' b] H.
  - reflexivity.
  - apply (f_equal String.length) in H. cbn in H. rewrite length_append in H. lia.
  - apply (f_equal String.length) in H. cbn in H. rewrite length_append in H. lia.
  - cbn in H. injection H as -> H. f_equal. now apply IH.
Qed.

(** The number a string of decimal digits writes, if it is one. *)
Lemma zeros_read (k : nat) (s : string) :
  option_map Nat.of_uint (DecimalString.NilEmpty.uint_of_string (zeros k ++ s)) =
  option_map Nat.of_uint (DecimalString.NilEmpty.uint_of_string s).
Proof.
  induction k as [| k IH]; [reflexivity |].
  cbn [zeros append DecimalString.NilEmpty.uint_of_string]. rewrite <- IH.
  destruct (DecimalString.NilEmpty.uint_of_string (zeros k ++ s)); reflexivity.
Qed.

Lemma toString_read (i : nat) :
  option_map Nat.of_uint (DecimalString.NilEmpty.uint_of_string (toString i)) = Some i.
Proof.
  unfold toString, DecimalString.NilZero.string_of_uint.
  pose proof (DecimalNat.Unsigned.of_to i) as Hi.
  destruct (Nat.to_uint i) eqn:E;
    try (rewrite DecimalString.NilEmpty.usu; cbn [option_map]; now rewrite Hi).
  cbn in Hi. subst i. reflexivity.
Qed.

Lemma padStart_read (n i : nat) :
  option_map Nat.of_uint
    (DecimalString.NilEmpty.uint_of_string (padStart n (toString i))) = Some i.
Proof. unfold padStart. rewrite zeros_read. apply toString_read. Qed.

Lemma frameFile_inj (i j : nat) : frameFile i = frameFile j -> i = j.
Proof.
  unfold frameFile. intros H.
  set (pi := padStart 4 (toString i)) in *.
  set (pj := padStart 4 (toString j)) in *.
  cbn [append] in H. injection H as H. apply append_cancel_r in H.
  pose proof (padStart_read 4 i) as Hi. fold pi in Hi.
  rewrite H in Hi. unfold pj in Hi. rewrite padStart_read in Hi.
  now injection Hi.
Qed.

Lemma four_digits_check :
  forallb (fun i => Nat.eqb (String.length (padStart 4 (toString i))) 4)
          (seq 0 (10 * 1000)) = true.
Proof. vm_compute. reflexivity. Qed.

(** Below 10000 the index is written with four digits. *)
Lemma padStart_four (i : nat) :
  (i < 10 * 1000)%nat -> String.length (padStart 4 (toString i)) = 4%nat.
Proof.
  intros Hi. pose proof four_digits_check as H.
  rewrite forallb_forall in H. apply Nat.eqb_eq, H, in_seq. lia.
Qed.

Lemma frameFile_not_output (i : nat) : frameFile i <> "output.mp4".
Proof. unfold frameFile. cbn [append]. discriminate. Qed.

Section Calls.

Context {Blob : Type}.

Lemma writeFrames_length (frames : list Blob) : forall k : nat,
  length (writeFrames k frames) = length frames.
Proof. induction frames as [| b rest IH]; intros k; cbn; [| rewrite IH]; reflexivity. Qed.

Lemma deleteFrames_length (frames : list Blob) : forall k : nat,
  length (deleteFrames k frames) = length frames.
Proof. induction frames as [| b rest IH]; intros k; cbn; [| rewrite IH]; reflexivity. Qed.

Lemma writeFrames_nth (frames : list Blob) : forall (k i : nat) (blob : Blob),
  nth_error frames i = Some blob ->
  nth_error (writeFrames k frames) i = Some (writeFile (frameFile (k + i)) blob).
Proof.
  induction frames as [| b rest IH]; intros k [| i] blob H; cbn in H |- *;
    try discriminate.
  - injection H as ->. now rewrite Nat.add_0_r.
  - rewrite (IH (S k) i blob H).
    now replace (S k + i)%nat with (k + S i)%nat by lia.
Qed.

Lemma deleteFrames_nth (frames : list Blob) : forall (k i : nat),
  (i < length frames)%nat ->
  nth_error (deleteFrames k frames) i = Some (deleteFile (frameFile (k + i))).
Proof.
  induction frames as [| b rest IH]; intros k [| i] H; cbn in H |- *; try lia.
  - now rewrite Nat.add_0_r.
  - rewrite (IH (S k) i) by lia.
    now replace (S k + i)%nat with (k + S i)%nat by lia.
Qed.

Lemma writeFrames_no_delete (name : string) (frames : list Blob) : forall k : nat,
  ~ In (deleteFile name) (writeFrames k frames).
Proof.
  induction frames as [| b rest IH]; intros k H; cbn in H; [exact H |].
  destruct H as [H | H]; [discriminate | exact (IH _ H)].
Qed.

Lemma encodeCalls_length (frames : list Blob) (targetBitrate : Z) :
  length (encodeCalls frames targetBitrate) = (2 * length frames + 3)%nat.
Proof.
  unfold encodeCalls.
  rewrite !length_app, writeFrames_length, deleteFrames_length. cbn. lia.
Qed.

(** The calls of [encodeVideo] one by one. *)
Lemma encodeCalls_nth (frames : list Blob) (targetBitrate : Z) :
  let calls := encodeCalls frames targetBitrate in
  let n := length frames in
  (forall (i : nat) (blob : Blob), nth_error frames i = Some blob ->
     nth_error calls i = Some (writeFile (frameFile i) blob) /\
     nth_error calls (n + 2 + i) = Some (deleteFile (frameFile i))) /\
  nth_error calls n = Some (exec (execArgs targetBitrate)) /\
  nth_error calls (n + 1) = Some (readFile "output.mp4") /\
  nth_error calls (2 * n + 2) = Some (deleteFile "output.mp4").
Proof.
  cbv zeta. unfold encodeCalls.
  set (W := writeFrames 0 frames). set (D := deleteFrames 0 frames).
  assert (HW : length W = length frames) by apply writeFrames_length.
  assert (HD : length D = length frames) by apply deleteFrames_length.
  split; [| split; [| split]].
  - intros i blob Hi.
    assert (Hlt : (i < length frames)%nat).
    { apply nth_error_Some. rewrite Hi. discriminate. }
    split.
    + rewrite nth_error_app1 by lia. exact (writeFrames_nth frames 0 i blob Hi).
    + rewrite nth_error_app2 by lia.
      replace (length frames + 2 + i - length W)%nat with (2 + i)%nat by lia.
      cbn [app nth_error Nat.add].
      rewrite nth_error_app1 by lia. exact (deleteFrames_nth frames 0 i Hlt).
  - rewrite nth_error_app2 by lia. rewrite HW, Nat.sub_diag. reflexivity.
  - rewrite nth_error_app2 by lia.
    replace (length frames + 1 - length W)%nat with 1%nat by lia. reflexivity.
  - rewrite nth_error_app2 by lia.
    replace (2 * length frames + 2 - length W)%nat with (2 + length D)%nat by lia.
    cbn [app nth_error Nat.add].
    rewrite nth_error_app2 by lia. rewrite Nat.sub_diag. reflexivity.
Qed.

(** X15.  The calls [encodeVideo] makes on the encoder, in order: frame
    [i] is written under [frameFile i], then come [exec] and the read of
    [output.mp4], then the frame files are deleted under the same names
    and [output.mp4] last, [2 n + 3] calls for [n] frames.  The names of
    two frames differ and none is [output.mp4], so that no write replaces
    another file and every file written is deleted. *)
Theorem encodeVideo_writes_each_frame_once (frames : list Blob) (targetBitrate : Z) :
  let calls := encodeCalls frames targetBitrate in
  let n := length frames in
  length calls = (2 * n + 3)%nat /\
  (forall (i : nat) (blob : Blob), nth_error frames i = Some blob ->
     nth_error calls i = Some (writeFile (frameFile i) blob) /\
     nth_error calls (n + 2 + i) = Some (deleteFile (frameFile i))) /\
  nth_error calls n = Some (exec (execArgs targetBitrate)) /\
  nth_error calls (n + 1) = Some (readFile "output.mp4") /\
  nth_error calls (2 * n + 2) = Some (deleteFile "output.mp4") /\
  (forall i j : nat, frameFile i = frameFile j -> i = j) /\
  (forall i : nat, frameFile i <> "output.mp4").
Proof.
  cbv zeta. split; [apply encodeCalls_length |].
  destruct (encodeCalls_nth frames targetBitrate) as (H1 & H2 & H3 & H4).
  repeat (split; [assumption |]).
  split; [exact frameFile_inj | exact frameFile_not_output].
Qed.

(** *** The outcome of [encodeVideo] *)

Lemma issue_all (resolves : nat -> bool) (calls : list (FfmpegCall Blob)) :
  forall k : nat,
  (forall i : nat, (i < length calls)%nat -> resolves (k + i)%nat = true) ->
  issue resolves k calls = (calls, true).
Proof.
  induction calls as [| call rest IH]; intros k H; cbn [issue]; [reflexivity |].
  pose proof (H 0%nat) as H0. rewrite Nat.add_0_r in H0.
  rewrite H0 by (cbn; lia). rewrite IH; [reflexivity |].
  intros i Hi. replace (S k + i)%nat with (k + S i)%nat by lia.
  apply H. cbn. lia.
Qed.

Lemma issue_first_rejection (resolves : nat -> bool) (calls : list (FfmpegCall Blob)) :
  forall k : nat,
  (exists i : nat, (i < length calls)%nat /\ resolves (k + i)%nat = false) ->
  exists i : nat, (i < length calls)%nat /\
    resolves (k + i)%nat = false /\
    (forall j : nat, (j < i)%nat -> resolves (k + j)%nat = true) /\
    issue resolves k calls = (firstn (S i) calls, false).
Proof.
  induction calls as [| call rest IH]; intros k (i & Hi & Hr); cbn in Hi; [lia |].
  cbn [issue]. destruct (resolves k) eqn:Hk.
  - destruct i as [| i]; [rewrite Nat.add_0_r in Hr; congruence |].
    destruct (IH (S k)) as (i' & Hi' & Hr' & Hall & Heq).
    { exists i. split; [lia |]. now replace (S k + i)%nat with (k + S i)%nat by lia. }
    exists (S i'). split; [cbn; lia |].
    split; [now replace (k + S i')%nat with (S k + i')%nat by lia |].
    split.
    + intros [| j] Hj; [now rewrite Nat.add_0_r |].
      replace (k + S j)%nat with (S k + j)%nat by lia. apply Hall. lia.
    + rewrite Heq. reflexivity.
  - exists 0%nat. split; [cbn; lia |]. split; [now rewrite Nat.add_0_r |].
    split; [intros j Hj; lia | reflexivity].
Qed.

Lemma handleExport_locked (h : Home Blob) :
  isRecording (recorder h) = true -> handleExport h = h.
Proof. intros H. unfold handleExport. now rewrite H. Qed.

(** X16.  When the encoder is there and every call on it resolves,
    [encodeVideo] makes all its calls, names the download after the
    quality tag of the bit rate and the time, and leaves the recorder idle
    with no frames: the next [handleExport] is accepted. *)
Theorem encodeVideo_success_unlocks
  (targetBitrate now : Z) (resolves : nat -> bool) (r : Recorder Blob) :
  (forall k : nat, (k < 2 * length (framesRef r) + 3)%nat -> resolves k = true) ->
  encodeVideo targetBitrate true resolves now r =
    (mkRecorder false [] (loaded r),
     encodeCalls (framesRef r) targetBitrate,
     Some ("lissajous_10s_" ++ fileTag targetBitrate ++ "_"
             ++ Z_toString now ++ ".mp4")) /\
  forall h : Home Blob,
    recorder h = fst (fst (encodeVideo targetBitrate true resolves now r)) ->
    resetKey (handleExport h) = S (resetKey h) /\
    length (timeouts (handleExport h)) = S (length (timeouts h)).
Proof.
  intros Hall.
  assert (Heq : encodeVideo targetBitrate true resolves now r =
    (mkRecorder false [] (loaded r), encodeCalls (framesRef r) targetBitrate,
     Some (downloadName targetBitrate now))).
  { unfold encodeVideo. cbn [negb framesRef loaded].
    rewrite issue_all; [reflexivity |].
    intros i Hi. rewrite encodeCalls_length in Hi. apply Hall. exact Hi. }
  split; [exact Heq |].
  intros h Hh. rewrite Heq in Hh. cbn [fst] in Hh.
  unfold handleExport. rewrite Hh. cbn [isRecording resetKey timeouts].
  split; [reflexivity |]. rewrite length_app. cbn. lia.
Qed.

(** X17.  When the encoder is missing, or one of the calls on it rejects,
    [encodeVideo] ends there: the calls made are those up to the first
    that rejects, there is no download, and the recorder stays marked as
    recording with its frames, so that every later [handleExport] is
    rejected.  If the call that rejects is a write, [exec] or the read,
    none of the files written has been deleted. *)
Theorem encodeVideo_failure_keeps_the_lock
  (targetBitrate now : Z) (ffmpeg : bool) (resolves : nat -> bool)
  (r : Recorder Blob) :
  ffmpeg = false \/
  (exists k : nat, (k < 2 * length (framesRef r) + 3)%nat /\ resolves k = false) ->
  let out := encodeVideo targetBitrate ffmpeg resolves now r in
  let calls := encodeCalls (framesRef r) targetBitrate in
  fst (fst out) = mkRecorder true (framesRef r) (loaded r) /\
  snd out = None /\
  (forall h : Home Blob, recorder h = fst (fst out) -> handleExport h = h) /\
  (ffmpeg = false -> snd (fst out) = []) /\
  (ffmpeg = true ->
   exists i : nat, (i < length calls)%nat /\
     resolves i = false /\
     (forall j : nat, (j < i)%nat -> resolves j = true) /\
     snd (fst out) = firstn (S i) calls /\
     ((i < length (framesRef r) + 2)%nat ->
      forall name : string, ~ In (deleteFile name) (snd (fst out)))).
Proof.
  intros H. cbv zeta.
  destruct ffmpeg.
  - destruct H as [H | H]; [discriminate |].
    destruct (issue_first_rejection resolves
                (encodeCalls (framesRef r) targetBitrate) 0)
      as (i & Hi & Hr & Hbefore & Heq).
    { destruct H as (k & Hk & Hk'). exists k.
      rewrite encodeCalls_length. split; assumption. }
    unfold encodeVideo. cbn [negb framesRef loaded]. rewrite Heq.
    cbn [fst snd]. split; [reflexivity |]. split; [reflexivity |].
    split; [intros h Hh; apply handleExport_locked; now rewrite Hh |].
    split; [discriminate |]. intros _.
    exists i. split; [exact Hi |]. split; [exact Hr |].
    split; [exact Hbefore |]. split; [reflexivity |].
    intros Hlt name Hin. unfold encodeCalls in Hin.
    rewrite app_assoc in Hin. rewrite firstn_app in Hin.
    rewrite length_app, writeFrames_length in Hin. cbn [length] in Hin.
    replace (S i - (length (framesRef r) + 2))%nat with 0%nat in Hin by lia.
    cbn [firstn] in Hin. rewrite app_nil_r in Hin.
    assert (Hin' : In (deleteFile name)
              (writeFrames 0 (framesRef r)
               ++ [exec (execArgs targetBitrate); readFile "output.mp4"])).
    { rewrite <- (firstn_skipn (S i)). apply in_or_app. left. exact Hin. }
    clear Hin. rename Hin' into Hin. apply in_app_or in Hin.
    destruct Hin as [Hin | [Hin | [Hin | []]]]; try discriminate.
    exact (writeFrames_no_delete name _ _ Hin).
  - unfold encodeVideo. cbn [negb fst snd].
    split; [reflexivity |]. split; [reflexivity |].
    split; [intros h Hh; apply handleExport_locked; now rewrite Hh |].
    split; [reflexivity | discriminate].
Qed.

End Calls.

(** Two frames at the low tier, every call resolving. *)
Lemma encodeVideo_success_unlocks_witness :
  encodeVideo 350000 true (fun _ => true) 1700000000000
    (mkRecorder true [tt; tt] true) =
  (mkRecorder false [] true, encodeCalls [tt; tt] 350000,
   Some "lissajous_10s_256kb_1700000000000.mp4").
Proof.
  exact (proj1 (encodeVideo_success_unlocks 350000 1700000000000
    (fun _ => true) (mkRecorder true [tt; tt] true) (fun _ _ => eq_refl))).
Defined.

(** Two frames, the read of the output rejecting: both frame files and
    [exec] have gone through, nothing has been deleted and the recorder
    stays locked. *)
Lemma encodeVideo_failure_keeps_the_lock_witness :
  fst (fst (encodeVideo 350000 true (fun k => Nat.ltb k 3) 1700000000000
              (mkRecorder true [tt; tt] true))) =
  mkRecorder true [tt; tt] true.
Proof.
  refine (proj1 (encodeVideo_failure_keeps_the_lock 350000 1700000000000 true
    (fun k => Nat.ltb k 3) (mkRecorder true [tt; tt] true) _)).
  right. exists 3%nat. split; [cbn; lia | reflexivity].
Defined.

End EncoderProps.

(** ** An export from the click to the download *)

Module SessionProps.

Import PrimFloat Recorder Page Encoder CaptureProps ExportProps CaptureFacts EncoderProps.

Local Open Scope Q_scope.

Section Session.

Context {Blob : Type} (toBlob : float -> option Blob).

Lemma blobs_length (log : list (nat * float)) :
  (length (flat_map (fun e => match toBlob (snd e) with
                              | Some bl => [bl]
                              | None => []
                              end) log) <= length log)%nat /\
  ((forall time : float, toBlob time <> None) ->
   length (flat_map (fun e => match toBlob (snd e) with
                              | Some bl => [bl]
                              | None => []
                              end) log) = length log).
Proof.
  induction log as [| e log [IH1 IH2]]; cbn [flat_map length app].
  - split; [lia | reflexivity].
  - rewrite length_app. split.
    + destruct (toBlob (snd e)); cbn [length]; lia.
    + intros Hall. rewrite (IH2 Hall).
      destruct (toBlob (snd e)) eqn:E; [reflexivity |].
      now destruct (Hall (snd e)).
Qed.

Lemma captureLoop_keeps_loaded (times : list float) :
  forall (c : Capture) (r : Recorder Blob),
  loaded (fst (fst (captureLoop toBlob times c r))) = loaded r.
Proof.
  induction times as [| time rest IH]; intros c r; cbn [captureLoop].
  - reflexivity.
  - destruct (captureFrame_cases toBlob c time r)
      as [[_ ->] | [(_ & _ & ->) | (_ & _ & ->)]].
    + reflexivity.
    + rewrite IH. apply pushBlob_flags.
    + apply IH.
Qed.

(** X18.  One capture session.  A start on a loaded recorder followed by
    the capture loop over any callbacks leaves the recorder marked as
    recording, and its frames are the non-null blobs of the snapshots of
    this session, in the order taken: the frames of an earlier session are
    gone, there are at most as many frames as snapshots and never more
    than 600, and as many as snapshots when no blob is null.  So each of
    the names [encodeVideo] writes them under is [frame], four decimal
    digits that read as the index, and [.png]; and the loop has reached
    [encodeVideo] once a callback is 10000 ms or more after the start. *)
Theorem session_frames_fit_the_sequence
  (bitrate : Z) (now : float) (times : list float) (r : Recorder Blob) :
  loaded r = true ->
  let started := fst (startRecording true bitrate now r) in
  let c := mkCapture bitrate now 0 in
  let run := captureLoop toBlob times c started in
  let frames := framesRef (fst (fst run)) in
  isRecording (fst (fst run)) = true /\
  frames = flat_map (fun e => match toBlob (snd e) with
                              | Some bl => [bl]
                              | None => []
                              end)
                    (snapshotLog toBlob times c started) /\
  (length frames <= snapshots toBlob times c started <= 600)%nat /\
  ((forall time : float, toBlob time <> None) ->
   length frames = snapshots toBlob times c started) /\
  (forall i : nat, (i < length frames)%nat ->
     exists digits : string,
       frameFile i = ("frame" ++ digits ++ ".png")%string /\
       String.length digits = 4%nat /\
       option_map Nat.of_uint (DecimalString.NilEmpty.uint_of_string digits)
         = Some i) /\
  ((exists time : float,
      In time times /\ (totalDuration <=? time - now)%float = true) ->
   snd run = true).
Proof.
  intros Hl. cbv zeta.
  rewrite (startRecording_starts bitrate now r Hl). cbn [fst].
  set (r0 := mkRecorder true [] true).
  set (c := mkCapture bitrate now 0).
  pose proof (frames_follow_snapshots toBlob times c r0) as Hfr.
  cbn [framesRef r0 app] in Hfr.
  destruct (snapshotLog_shape toBlob times c r0) as (_ & Hn & _).
  cbv zeta in Hn. cbn [frameCount c Nat.add] in Hn.
  destruct (snapshots_bounded toBlob times c r0) as [Hb _]; [cbn; lia |].
  destruct (blobs_length (snapshotLog toBlob times c r0)) as [Hle Heq].
  split; [now rewrite captureLoop_keeps_recording |].
  split; [exact Hfr |].
  split; [rewrite Hfr, Hn; lia |].
  split; [intros Hall; rewrite Hfr, Hn; now apply Heq |].
  split.
  - intros i Hi. exists (padStart 4 (toString i)).
    split; [reflexivity |].
    split; [apply padStart_four; rewrite Hfr in Hi; lia | apply padStart_read].
  - intros Hex. apply captureLoop_stops. exact Hex.
Qed.

(** X19.  [startRecording] has no guard of its own.  From an idle page two
    calls of [handleExport] in a row are both accepted: [resetKey] goes up
    by two and two starts are scheduled.  When the second start runs, the
    recorder being loaded, whatever the capture of the first has
    collected by then is dropped and a second capture is requested with
    its own start time and a frame count of 0. *)
Theorem second_start_restarts_the_capture
  (h : Home Blob) (now1 now2 : float) (times : list float) :
  isRecording (recorder h) = false ->
  loaded (recorder h) = true ->
  let h2 := handleExport (handleExport h) in
  resetKey h2 = S (S (resetKey h)) /\
  (exists b1 b2 : Z, timeouts h2 = timeouts h ++ [(150, b1); (150, b2)] /\
   let r1 := fst (startRecording true b1 now1 (recorder h2)) in
   let r1' := fst (fst (captureLoop toBlob times (mkCapture b1 now1 0) r1)) in
   isRecording r1' = true /\
   startRecording true b2 now2 r1' =
     (mkRecorder true [] true,
      [requestAnimationFrame (mkCapture b2 now2 0)])).
Proof.
  intros Hidle Hl. cbv zeta.
  assert (H1 : forall h0 : Home Blob, isRecording (recorder h0) = false ->
    exists b : Z, handleExport h0 =
      mkHome (quality h0) (S (resetKey h0)) (recorder h0) (capture h0)
             (timeouts h0 ++ [(150, b)])).
  { intros h0 H0. unfold handleExport. rewrite H0. eexists. reflexivity. }
  destruct (H1 h Hidle) as (b1 & E1).
  destruct (H1 (handleExport h)) as (b2 & E2); [rewrite E1; exact Hidle |].
  rewrite E2, E1. cbn [resetKey timeouts recorder quality capture].
  split; [reflexivity |].
  exists b1, b2. rewrite <- app_assoc. split; [reflexivity |].
  rewrite (startRecording_starts b1 now1 (recorder h) Hl). cbn [fst].
  split; [now rewrite captureLoop_keeps_recording |].
  apply startRecording_starts. now rewrite captureLoop_keeps_loaded.
Qed.

(** X20.  An accepted [handleExport] bumps [resetKey], leaves the recorder
    alone and schedules one start, 150 ms later, at the bit rate of the
    quality tier; that bit rate is the one passed to the encoder after
    [-b:v], and its tag in the name of the download is the tier. *)
Theorem handleExport_starts_at_the_tier (h : Home Blob) (now : Z) :
  isRecording (recorder h) = false ->
  let tier := match quality h with hq => "hq"%string | q256kb => "256kb"%string end in
  let rate := match quality h with
              | hq => "25000000"%string
              | q256kb => "350000"%string
              end in
  exists bitrate : Z,
    handleExport h =
      mkHome (quality h) (S (resetKey h)) (recorder h) (capture h)
             (timeouts h ++ [(150, bitrate)]) /\
    nth_error (execArgs bitrate) 8 = Some "-b:v"%string /\
    nth_error (execArgs bitrate) 9 = Some rate /\
    fileTag bitrate = tier /\
    downloadName bitrate now =
      ("lissajous_10s_" ++ tier ++ "_" ++ Z_toString now ++ ".mp4")%string.
Proof.
  intros Hidle. cbv zeta. unfold handleExport. rewrite Hidle.
  eexists. split; [reflexivity |].
  unfold downloadName. destruct (quality h); repeat split; reflexivity.
Qed.

End Session.

(** A capture at 60 callbacks a second that returns a blob every time. *)
Lemma session_frames_fit_the_sequence_witness :
  le (length (framesRef (fst (fst
        (captureLoop (fun _ => Some tt) [0; 10; 20; 10000]%float
           (mkCapture 350000 0%float 0)
           (fst (startRecording true 350000 0%float (mkRecorder false [tt] true))))))))
     600%nat.
Proof.
  pose proof (session_frames_fit_the_sequence (fun _ : float => Some tt) 350000
    0%float [0; 10; 20; 10000]%float (mkRecorder false [tt] true) eq_refl) as H.
  cbv zeta in H. destruct H as (_ & _ & [H1 H2] & _).
  exact (Nat.le_trans _ _ _ H1 H2).
Defined.

Lemma second_start_restarts_the_capture_witness :
  resetKey (handleExport (handleExport (mkHome q256kb 0 (mkRecorder false [tt] true) None [])))
  = 2%nat.
Proof.
  exact (proj1 (second_start_restarts_the_capture (fun _ : float => Some tt)
    (mkHome q256kb 0 (mkRecorder false [tt] true) None []) 150%float 200%float
    [150; 170]%float eq_refl eq_refl)).
Defined.

Lemma handleExport_starts_at_the_tier_witness :
  exists bitrate : Z,
    handleExport (mkHome q256kb 0 (mkRecorder false ([] : list unit) true) None []) =
      mkHome q256kb 1 (mkRecorder false [] true) None [(150, bitrate)] /\
    nth_error (execArgs bitrate) 8 = Some "-b:v"%string /\
    nth_error (execArgs bitrate) 9 = Some "350000"%string /\
    fileTag bitrate = "256kb"%string /\
    downloadName bitrate 1700000000000 =
      "lissajous_10s_256kb_1700000000000.mp4"%string.
Proof.
  exact (handleExport_starts_at_the_tier
    (mkHome q256kb 0 (mkRecorder false ([] : list unit) true) None [])
    1700000000000 eq_refl).
Defined.

End SessionProps.

(** ** The controls of the page and the sketch *)

Module EditorProps.

Import Lissajous Editor ModeProps EngineProps CycleProps.

Local Open Scope R_scope.

(** The fields after the sync effect. *)
Lemma syncPhysics_fields (k c m steps split : R) (md : Mode) (s : LissajousSketch) :
  let s' := syncPhysics k c m steps split md s in
  (stiffness s' = k /\ damping s' = c /\ mass s' = m /\ _mode s' = md) /\
  (holdDuration s' = (10 / steps - 10 / steps * split) * 60 /\
   transitionDuration s' = 10 / steps * split * 60) /\
  (t s' = t s /\ timeStep s' = timeStep s /\ phases s' = phases s /\
   currentPhaseIndex s' = currentPhaseIndex s /\ direction s' = direction s /\
   state s' = state s /\ timer s' = timer s /\ frame s' = frame s /\
   currentParams s' = currentParams s /\ targetParams s' = targetParams s) /\
  currentVelocity s' =
    (if Mode_eqb (_mode s) md then currentVelocity s else zeroParams).
Proof.
  cbv zeta. unfold syncPhysics, set_mode.
  cbn [set_stiffness set_damping set_mass set_holdDuration
       set_transitionDuration _mode].
  destruct (Mode_eqb (_mode s) md) eqn:E; cbn [negb].
  - apply Mode_eqb_eq in E. cbn. repeat split; assumption.
  - cbn. repeat split.
Qed.

(** X21.  The sync effect of the page splits each step of the 10 s loop
    between hold and transition: for [steps > 0] and [0 <= split <= 1]
    both durations are non-negative and add up to [600 / steps] frames, so
    that [steps] steps are budgeted 600 frames.  It stores the three
    physics values and the mode, leaves the clock, the sequencer, the
    state, the timer and the position as they are, and zeroes the velocity
    exactly when the mode changes; a second run of the effect with the
    same controls changes nothing. *)
Theorem syncPhysics_budgets_600_frames
  (k c m steps split : R) (md : Mode) (s : LissajousSketch) :
  0 < steps ->
  0 <= split <= 1 ->
  let s' := syncPhysics k c m steps split md s in
  0 <= holdDuration s' /\
  0 <= transitionDuration s' /\
  holdDuration s' + transitionDuration s' = 600 / steps /\
  steps * (holdDuration s' + transitionDuration s') = 600 /\
  (stiffness s' = k /\ damping s' = c /\ mass s' = m /\ _mode s' = md) /\
  (t s' = t s /\ timeStep s' = timeStep s /\ phases s' = phases s /\
   currentPhaseIndex s' = currentPhaseIndex s /\ direction s' = direction s /\
   state s' = state s /\ timer s' = timer s /\ frame s' = frame s /\
   currentParams s' = currentParams s /\ targetParams s' = targetParams s) /\
  (_mode s = md -> currentVelocity s' = currentVelocity s) /\
  (_mode s <> md -> currentVelocity s' = zeroParams) /\
  syncPhysics k c m steps split md s' = s'.
Proof.
  intros Hsteps Hsplit.
  destruct (syncPhysics_fields k c m steps split md s)
    as ((Hk & Hc & Hm & Hmd) & (Hh & Ht) & Hkeep & Hv).
  cbv zeta.
  set (s' := syncPhysics k c m steps split md s) in *. clearbody s'.
  assert (Hq : 0 < 10 / steps) by (apply Rdiv_lt_0_compat; lra).
  assert (Hsum : holdDuration s' + transitionDuration s' = 600 / steps).
  { rewrite Hh, Ht. unfold Rdiv. ring. }
  split; [rewrite Hh; nra |]. split; [rewrite Ht; nra |].
  split; [exact Hsum |].
  split; [rewrite Hsum; field; lra |].
  split; [auto |]. split; [exact Hkeep |].
  split; [intros E; rewrite Hv; apply Mode_eqb_eq in E; now rewrite E |].
  split.
  { intros E. rewrite Hv. destruct (Mode_eqb (_mode s) md) eqn:E';
      [apply Mode_eqb_eq in E'; contradiction | reflexivity]. }
  destruct (syncPhysics_fields k c m steps split md s')
    as ((Hk2 & Hc2 & Hm2 & Hmd2) & (Hh2 & Ht2) & Hkeep2 & Hv2).
  rewrite Hmd, Mode_eqb_refl in Hv2.
  set (s2 := syncPhysics k c m steps split md s') in *. clearbody s2.
  destruct Hkeep2 as (K1 & K2 & K3 & K4 & K5 & K6 & K7 & K8 & K9 & K10).
  apply FieldProps.sketch_ext; [| congruence | congruence].
  unfold sameButMotion. repeat split; congruence.
Qed.

(** The frames of a phase of duration [d >= 0]: at least [d], at most
    [d + 1], and less than [d + 1] when [d] is positive. *)
Lemma framesFor_bounds (d : R) (n : nat) :
  0 <= d -> framesFor d n ->
  d <= INR n <= d + 1 /\ (0 < d -> INR n < d + 1).
Proof.
  intros Hd (Hn & Hle & Hlast).
  destruct Hlast as [-> | Hlt]; cbn [INR] in *; split; try split; intros; lra.
Qed.

(** X22.  A step of the synced sketch against its budget.  After the sync
    effect ([steps > 0], [0 <= split <= 1], classic or table mode) a
    sketch that starts a hold takes [nH + nT] frames to be in HOLD on the
    next keyframe, where [nH] and [nT] are the whole numbers of frames of
    the two durations: never fewer than the [600 / steps] frames
    budgeted, fewer than two more, and exactly the budget only when both
    durations are whole numbers of frames. *)
Theorem synced_step_takes_its_budget_or_more
  (k c m steps split : R) (md : Mode) (s : LissajousSketch) (nH nT : nat) :
  0 < steps ->
  0 <= split <= 1 ->
  md <> harmonic ->
  state s = HOLD ->
  timer s = 0 ->
  cursor_ok s ->
  let s0 := syncPhysics k c m steps split md s in
  framesFor (holdDuration s0) nH ->
  framesFor (transitionDuration s0) nT ->
  600 / steps <= INR (nH + nT) < 600 / steps + 2 /\
  (INR (nH + nT) = 600 / steps ->
   holdDuration s0 = INR nH /\ transitionDuration s0 = INR nT) /\
  exists s', runFrames (nH + nT) s0 = Some s' /\
    state s' = HOLD /\
    timer s' = 0 /\
    currentVelocity s' = mkParams 0 0 0 /\
    currentPhaseIndex s' <> currentPhaseIndex s /\
    array_get (phases s) (currentPhaseIndex s') = Some (currentParams s').
Proof.
  intros Hsteps Hsplit Hmd Hst Ht0 Hok.
  destruct (syncPhysics_fields k c m steps split md s)
    as ((_ & _ & _ & Hmode) & (Hh & Ht) &
        (_ & _ & Hph & Hidx & Hdir & Hstate & Htimer & _) & _).
  cbv zeta.
  set (s0 := syncPhysics k c m steps split md s) in *. clearbody s0.
  intros HnH HnT.
  assert (Hq : 0 < 10 / steps) by (apply Rdiv_lt_0_compat; lra).
  assert (Hsum : holdDuration s0 + transitionDuration s0 = 600 / steps).
  { rewrite Hh, Ht. unfold Rdiv. ring. }
  assert (Hpos : 0 < 600 / steps) by (apply Rdiv_lt_0_compat; lra).
  assert (HdH : 0 <= holdDuration s0) by (rewrite Hh; nra).
  assert (HdT : 0 <= transitionDuration s0) by (rewrite Ht; nra).
  destruct (framesFor_bounds _ _ HdH HnH) as [[H1 H2] H3].
  destruct (framesFor_bounds _ _ HdT HnT) as [[T1 T2] T3].
  rewrite plus_INR.
  split; [| split].
  - split; [lra |].
    destruct (Rle_lt_or_eq_dec _ _ HdH) as [Hp | Hz].
    + specialize (H3 Hp). lra.
    + assert (Hp : 0 < transitionDuration s0) by lra. specialize (T3 Hp). lra.
  - intros E. split; lra.
  - assert (Hok0 : cursor_ok s0).
    { unfold cursor_ok in *. rewrite Hph, Hidx, Hdir. exact Hok. }
    destruct (cycle_phase nH nT s0) as (s' & Hrun & Hs1 & Hs2 & _ & _ & Hs5 & Hs6 & Hs7);
      try assumption; try congruence.
    exists s'. split; [exact Hrun |]. split; [exact Hs1 |]. split; [exact Hs2 |].
    split; [exact Hs5 |]. split; [now rewrite <- Hidx |]. now rewrite <- Hph.
Qed.

(** Under the initial controls a step is budgeted 75 frames and takes
    42 + 34 = 76. *)
Lemma synced_step_takes_its_budget_or_more_witness :
  600 / 8 <= INR (42 + 34) < 600 / 8 + 2.
Proof.
  refine (proj1 (synced_step_takes_its_budget_or_more
    (25 / 1000) (283 / 1000) 1 8 (45 / 100) classic new_LissajousSketch 42 34
    _ _ _ _ _ _ initialSketch_hold_frames initialSketch_transition_frames)).
  - lra.
  - lra.
  - discriminate.
  - reflexivity.
  - reflexivity.
  - repeat split; cbn; lia.
Defined.

(** The initial controls: 41.25 frames of hold and 33.75 of transition. *)
Lemma syncPhysics_budgets_600_frames_witness :
  holdDuration initialSketch + transitionDuration initialSketch = 600 / 8.
Proof.
  refine (proj1 (proj2 (proj2 (syncPhysics_budgets_600_frames
    (25 / 1000) (283 / 1000) 1 8 (45 / 100) classic new_LissajousSketch _ _)))).
  - lra.
  - lra.
Defined.

(** X23.  The damping of the critical damping calculator is the one with
    [c * c = 4 * stiffness * mass], and the sync effect stores it; but the
    first step of the linear engine from rest does not read the damping:
    the displacement is multiplied by [1 - stiffness / mass], so the field
    still passes its target on that step when the stiffness is larger
    than the mass. *)
Theorem critical_damping_leaves_first_step
  (k m steps split : R) (md : Mode) (key : Key) (s : LissajousSketch) :
  0 < m ->
  0 <= k ->
  md <> harmonic ->
  get (currentVelocity s) key = 0 ->
  let c := criticalDamping k m in
  let s0 := syncPhysics k c m steps split md s in
  let d := get (targetParams s) key - get (currentParams s) key in
  let s1 := applySpringForce key s0 in
  let d1 := get (targetParams s1) key - get (currentParams s1) key in
  0 <= c /\
  c * c = 4 * k * m /\
  damping s0 = c /\
  (1 / 1000 <= Rabs d -> d1 = d * (1 - k / m)) /\
  (k <= m -> 0 <= d * d1 /\ Rabs d1 <= Rabs d) /\
  (m < k -> 1 / 1000 <= Rabs d -> d * d1 < 0).
Proof.
  intros Hm Hk Hmd Hv. cbv zeta.
  set (c := criticalDamping k m).
  destruct (syncPhysics_fields k c m steps split md s)
    as ((Hk0 & Hc0 & Hm0 & Hmode) & _ &
        (_ & _ & _ & _ & _ & _ & _ & _ & Hcur & Htgt) & Hvel).
  cbv zeta in Hk0, Hc0, Hm0, Hmode, Hcur, Htgt, Hvel.
  set (s0 := syncPhysics k c m steps split md s) in *. clearbody s0.
  assert (Hv0 : get (currentVelocity s0) key = 0).
  { rewrite Hvel. destruct (Mode_eqb (_mode s) md); [exact Hv | now destruct key]. }
  assert (Hmd0 : _mode s0 <> harmonic) by (rewrite Hmode; exact Hmd).
  assert (Hm0' : 0 < mass s0) by (rewrite Hm0; exact Hm).
  pose proof (EngineRules.linear_step_from_rest key s0 Hmd0 Hm0' Hv0) as H.
  cbv zeta in H. rewrite Hk0, Hm0, Hcur, Htgt in H.
  destruct H as (_ & Hfar & Hsafe & Hover).
  assert (Hkm : 0 <= k * m) by nra.
  split; [unfold c, criticalDamping; pose proof (sqrt_pos (k * m)); lra |].
  split.
  { unfold c, criticalDamping.
    replace (2 * sqrt (k * m) * (2 * sqrt (k * m)))
      with (4 * (sqrt (k * m) * sqrt (k * m))) by ring.
    rewrite sqrt_sqrt by exact Hkm. ring. }
  split; [exact Hc0 |]. split; [exact Hfar |].
  split; [intros Hle; apply Hsafe; lra | exact Hover].
Qed.

(** Stiffness 0.2 and mass 0.1 with the damping of the calculator: the
    field [b], at rest on 1 with target 2, has its displacement of 1
    multiplied by 1 - 2 = -1. *)
Lemma critical_damping_leaves_first_step_witness :
  let s := set__mode classic (harmonicAt 1 1 0 2) in
  let s0 := syncPhysics (2 / 10) (criticalDamping (2 / 10) (1 / 10)) (1 / 10)
              8 (45 / 100) classic s in
  let s1 := applySpringForce key_b s0 in
  get (targetParams s1) key_b - get (currentParams s1) key_b =
  (get (targetParams s) key_b - get (currentParams s) key_b)
  * (1 - 2 / 10 / (1 / 10)).
Proof.
  refine (proj1 (proj2 (proj2 (proj2
    (critical_damping_leaves_first_step (2 / 10) (1 / 10) 8 (45 / 100)
       classic key_b (set__mode classic (harmonicAt 1 1 0 2)) _ _ _ _)))) _).
  - lra.
  - lra.
  - discriminate.
  - reflexivity.
  - cbn [harmonicAt set__mode get targetParams currentParams b].
    replace (2 - 1) with 1 by lra. rewrite Rabs_R1. lra.
Defined.

End EditorProps.

(** ** The render loop *)

Module RenderLoopProps.

Import RenderLoop.

Local Open Scope Q_scope.

Lemma last_cons_default {A : Type} (l : list A) : forall x d : A,
  last (x :: l) d = last l x.
Proof.
  induction l as [| y l IH]; intros x d; [reflexivity |].
  change (last (x :: y :: l) d) with (last (y :: l) d).
  now rewrite !IH.
Qed.

(** The ticks from any state of the loop on. *)
Lemma ticks_shape (nows : list Q) : forall l : Loop,
  length (ticks nows l) = length nows /\
  map frame (ticks nows l) = seq (S (frameCount l)) (length nows) /\
  map time (ticks nows l) = map (fun now => (now - startTime l) / 1000) nows /\
  totalDelta (ticks nows l) == (last nows (lastTime l) - lastTime l) / 1000.
Proof.
  induction nows as [| now rest IH]; intros l; cbn [ticks loop length map seq].
  - cbn [last totalDelta fold_right]. repeat split; try reflexivity. field.
  - destruct (IH (mkLoop (startTime l) now (S (frameCount l))))
      as (H1 & H2 & H3 & H4).
    cbn [startTime lastTime frameCount] in H1, H2, H3, H4.
    cbn [length map frame time]. rewrite H1, H2, H3.
    split; [reflexivity |]. split; [reflexivity |]. split; [reflexivity |].
    unfold totalDelta in *. cbn [fold_right deltaTime]. rewrite H4.
    rewrite last_cons_default. field.
Qed.

Lemma ticks_last (nows : list Q) : forall (l : Loop) (tk0 : Tick),
  time tk0 = (lastTime l - startTime l) / 1000 ->
  time (last (ticks nows l) tk0) = (last nows (lastTime l) - startTime l) / 1000.
Proof.
  induction nows as [| now rest IH]; intros l tk0 H0; cbn [ticks loop].
  - exact H0.
  - rewrite !last_cons_default. apply (IH (mkLoop (startTime l) now _)).
    reflexivity.
Qed.

(** X24.  The clock of the render loop.  The effect calls [draw] once at
    the start and once per animation callback: the frame numbers are
    1, 2, 3, ..., the time of a tick is its timestamp less the start, in
    seconds, the first tick has time 0 and delta 0, and the deltas add up
    to the time of the last tick. *)
Theorem render_loop_clock (start : Q) (nows : list Q) :
  let run := RenderLoop.run start nows in
  length run = S (length nows) /\
  map frame run = seq 1 (S (length nows)) /\
  map time run = map (fun now => (now - start) / 1000) (start :: nows) /\
  (exists tk rest, run = tk :: rest /\
     time tk == 0 /\ deltaTime tk == 0 /\ frame tk = 1%nat) /\
  totalDelta run == time (last run (mkTick 0 0 0)).
Proof.
  cbv zeta. unfold run.
  destruct (ticks_shape (start :: nows) (mount start)) as (H1 & H2 & H3 & H4).
  cbn [mount startTime lastTime frameCount length] in H1, H2, H3, H4.
  split; [exact H1 |]. split; [exact H2 |]. split; [exact H3 |].
  split.
  { cbn [ticks loop mount startTime lastTime frameCount].
    eexists. eexists. split; [reflexivity |]. cbn [time deltaTime frame].
    split; [field |]. split; [field | reflexivity]. }
  rewrite H4. rewrite last_cons_default.
  cbn [ticks loop mount startTime lastTime frameCount].
  rewrite last_cons_default.
  rewrite (ticks_last nows (mkLoop start start 1)
             (mkTick ((start - start) / 1000) ((start - start) / 1000) 1) eq_refl).
  reflexivity.
Qed.

End RenderLoopProps.

